(** * Word-level pooling of wordpiece embeddings

    A shallow embedding of
    [src/modules/token_embedders/pretrained_embedding_mismatched_embedder.py]
    (class [PretrainedEmbeddingMismatchedEmbedder]) and the properties of its
    [forward] and [get_output_dim] methods.

    Tensors are nested lists, outermost dimension first.  [LongTensor]
    entries are integers ([Z]).  Float entries are the type [scalar] below:
    rounding, overflow and the sign of zero are abstracted away (a finite
    value is an exact rational), the three non-finite values are kept and
    follow the IEEE 754 rules, because the division at the end of [forward]
    can produce them.  The statements below therefore relate the result of
    [forward] to the same sums and quotients of the same vectors; the only
    values they give are those that float arithmetic gives exactly (a sum
    with zeros, a quotient by one). *)

From Stdlib Require Import ZArith QArith Qcanon List Lia.
From stdpp Require Import base numbers list option.

Local Open Scope Z_scope.

(** ** Float entries *)

Inductive scalar : Type :=
  | Finite (q : Qc)
  | PosInf
  | NegInf
  | NaN.

Definition is_finite (x : scalar) : bool :=
  match x with Finite _ => true | _ => false end.

Definition szero : scalar := Finite (Qc_of_Z 0).

#[global] Instance scalar_inhabited : Inhabited scalar := populate szero.

(** Float addition, without rounding and without overflow: the sum of two
    finite values is their exact sum. *)
Definition sadd (x y : scalar) : scalar :=
  match x, y with
  | NaN, _ | _, NaN => NaN
  | PosInf, NegInf | NegInf, PosInf => NaN
  | PosInf, _ | _, PosInf => PosInf
  | NegInf, _ | _, NegInf => NegInf
  | Finite a, Finite b => Finite (a + b)%Qc
  end.

(** A float times a boolean mask entry (the mask entry is promoted to [1.0]
    or [0.0]): a non-finite value times zero is NaN. *)
Definition smul_bool (x : scalar) (m : bool) : scalar :=
  if m then x
  else match x with Finite _ => szero | _ => NaN end.

(** A float divided by an integer count (true division, the count promoted
    to a float): dividing by zero raises nothing and gives NaN for [0 / 0]
    and an infinity otherwise.  The quotient of a finite value by a count
    other than zero is exact, it is not rounded. *)
Definition sdiv_long (x : scalar) (n : Z) : scalar :=
  match x with
  | NaN => NaN
  | PosInf => if n <? 0 then NegInf else PosInf
  | NegInf => if n <? 0 then PosInf else NegInf
  | Finite a =>
      if n =? 0 then
        match (a ?= Qc_of_Z 0)%Qc with
        | Eq => NaN
        | Gt => PosInf
        | Lt => NegInf
        end
      else Finite (a / Qc_of_Z n)%Qc
  end.

(** ** Tensors *)

Abbreviation vec := (list scalar) (only parsing).

(** [LongTensor] of rank 2: token_ids, mask, wordpiece_mask, type_ids. *)
Abbreviation long2 := (list (list Z)) (only parsing).
(** [offsets]: rank 3 with a last dimension of size 2, an inclusive
    [(start, end)] pair for every original token. *)
Abbreviation spans3 := (list (list (Z * Z))) (only parsing).
(** Float tensors of rank 3 and 4. *)
Abbreviation float3 := (list (list vec)) (only parsing).
Abbreviation float4 := (list (list (list vec))) (only parsing).
(** The span mask before ([bool3]) and after ([bool4]) [unsqueeze(-1)]. *)
Abbreviation bool3 := (list (list (list bool))) (only parsing).
Abbreviation bool4 := (list (list (list (list bool)))) (only parsing).
(** [span_mask.sum(2)]: rank 3 with a last dimension of size 1. *)
Abbreviation long3 := (list (list (list Z))) (only parsing).

(** A rank-3 float tensor has shape [(B, N, D)]. *)
Definition has_shape3 (B N D : nat) (t : float3) : bool :=
  (length t =? B)%nat
  && forallb (fun row =>
       (length row =? N)%nat
       && forallb (fun v : vec => (length v =? D)%nat) row) t.

(** A rank-2 tensor (of spans or of integers) has shape [(B, T)]. *)
Definition has_shape2 {A} (B T : nat) (t : list (list A)) : bool :=
  (length t =? B)%nat && forallb (fun row => (length row =? T)%nat) t.

(** Every entry of a rank-3 float tensor is a finite number. *)
Definition all_finite (t : float3) : bool :=
  forallb (forallb (forallb is_finite)) t.

(** Elementwise application along one list dimension. *)
Abbreviation lmap := (fmap (M:=list)) (only parsing).

(** ** Errors raised by the tensor layer *)

Inductive error : Type :=
  | IndexOutOfRange
  | ShapeMismatch
  | InvalidReference.

Inductive result (A : Type) : Type :=
  | Ok (a : A)
  | Raise (e : error).
Arguments Ok {A} a.
Arguments Raise {A} e.

#[global] Instance result_ret : MRet result := fun _ a => Ok a.
#[global] Instance result_bind : MBind result := fun _ _ f m =>
  match m with
  | Ok a => f a
  | Raise e => Raise e
  end.
#[global] Instance result_fmap : FMap result := fun _ _ f m =>
  match m with
  | Ok a => Ok (f a)
  | Raise e => Raise e
  end.

(** ** The inner embedder *)

(** Modelled from the spec: [PretrainedEmbeddingEmbedder] (imported from
    [src.modules.token_embedders], not part of the sources at hand).  It is
    taken as a parameter: its output-dimension query and its call, a
    function from [token_ids], [wordpiece_mask] and the optional [type_ids]
    and [segment_concat_mask] to a float tensor of per-wordpiece vectors. *)
Record PretrainedEmbeddingEmbedder : Type := {
  inner_get_output_dim : Z;
  inner_forward : long2 -> long2 -> option long2 -> option long2 -> float3
}.

(** The shape contract of the inner embedder at one call: for [token_ids]
    of shape [(B, N)] the output has shape [(B, N, D)], [D] being the
    dimension it reports. *)
Definition inner_shape_ok (e : PretrainedEmbeddingEmbedder) (B N : nat)
    (token_ids wordpiece_mask : long2) (type_ids seg : option long2) : bool :=
  (0 <=? inner_get_output_dim e)
  && has_shape3 B N (Z.to_nat (inner_get_output_dim e))
       (inner_forward e token_ids wordpiece_mask type_ids seg).

(** ** The module *)

Record PretrainedEmbeddingMismatchedEmbedder : Type := {
  _matched_embedder : PretrainedEmbeddingEmbedder
}.

Definition get_output_dim (self : PretrainedEmbeddingMismatchedEmbedder) : Z :=
  inner_get_output_dim (_matched_embedder self).

(** ** Span selection

    [util.batched_span_select] belongs to the AllenNLP library and is not
    part of the sources; the definitions of this section model it from the
    specification, as a function of the two tensors that [forward] hands to
    it. *)

(** Modelled from the spec: the number of wordpieces of the inclusive span
    [(start, end)].  The specification requires [start <= end]; it says
    nothing about [end < start], for which the length is taken to be 0. *)
Definition span_length (sp : Z * Z) : nat := Z.to_nat (sp.2 - sp.1 + 1).

(** Modelled from the spec: the maximum span length observed in the
    batch. *)
Definition max_span_length (spans : spans3) : nat :=
  max_list (span_length <$> concat spans).

(** Modelled from the spec: both ends of the span are wordpiece indices in
    [[0, n)]. *)
Definition span_in_range (n : nat) (sp : Z * Z) : bool :=
  (0 <=? sp.1) && (sp.1 <? Z.of_nat n) && (0 <=? sp.2) && (sp.2 <? Z.of_nat n).

(** Modelled from the spec: every span of the batch is in range, [n] being
    the number of wordpieces of its batch row. *)
Definition spans_in_range (target : float3) (spans : spans3) : bool :=
  forallb (fun p : list vec * list (Z * Z) =>
             forallb (span_in_range (length p.1)) p.2)
          (zip target spans).

(** Modelled from the spec: the mask of one span, right-padded to [W]
    slots; slot [k] is real when it lies inside the span. *)
Definition span_mask_of (W : nat) (sp : Z * Z) : list bool :=
  (fun k => (k <? span_length sp)%nat) <$> seq 0 W.

(** Modelled from the spec: the wordpiece index read for slot [k] of a
    span, [start + k] inside the span.  The specification does not say what
    a padding slot holds; here it holds the vector at index 0, which
    [forward] multiplies by the zero of the mask. *)
Definition span_index (sp : Z * Z) (k : nat) : nat :=
  if (k <? span_length sp)%nat then (Z.to_nat sp.1 + k)%nat else 0%nat.

(** Modelled from the spec: the vectors of one span, right-padded to [W]
    slots. *)
Definition gather_span (row : list vec) (W : nat) (sp : Z * Z) : list vec :=
  (fun k => row !!! span_index sp k) <$> seq 0 W.

(** Modelled from the spec: [util.batched_span_select] of the AllenNLP
    library, which is not part of the sources.  Given the per-wordpiece
    vectors [target] (batch x num_wordpieces x embedding_size) and the
    inclusive [(start, end)] pairs [spans] (batch x num_spans x 2) it
    gathers for every span the vectors at [start .. end], right-padded to
    the maximum span length of the batch, together with the mask of the
    slots that are inside their span.  It fails when the batch sizes
    disagree and when a span refers to an index outside
    [[0, num_wordpieces)].  Its only inputs are the two tensors which
    [forward] hands to it. *)
Definition batched_span_select (target : float3) (spans : spans3)
    : result (float4 * bool3) :=
  if negb (length target =? length spans)%nat then Raise ShapeMismatch
  else if negb (spans_in_range target spans) then Raise IndexOutOfRange
  else
    let W := max_span_length spans in
    Ok (zip_with (fun (row : list vec) (sps : list (Z * Z)) =>
                    gather_span row W <$> sps) target spans,
        (fun sps : list (Z * Z) => span_mask_of W <$> sps) <$> spans).

(** ** Tensor operations used by [forward] *)

(** [t.contiguous()]: the same values. *)
Definition contiguous (t : float3) : float3 := t.

(** [t.size(-1)] of a rank-3 tensor, read off the nested lists. *)
Definition last_dim (t : float3) : nat :=
  match t with
  | (v :: _) :: _ => length v
  | _ => 0%nat
  end.

(** [span_mask.unsqueeze(-1)]: a trailing dimension of size 1. *)
Definition unsqueeze_last (m : bool3) : bool4 :=
  lmap (lmap (lmap (fun b : bool => [b]))) m.

(** Broadcasting of a trailing dimension of size 1 to size [D]. *)
Definition expand_last {A} (D : nat) (l : list A) : list A :=
  match l with
  | [a] => replicate D a
  | _ => l
  end.

(** [x *= m] for [x] of shape [(B, T, W, D)] and [m] of shape
    [(B, T, W, 1)]: the value that [x] holds afterwards. *)
Definition mul_mask (x : float4) (m : bool4) : float4 :=
  zip_with (zip_with (zip_with
    (fun (v : vec) (mb : list bool) =>
       zip_with smul_bool v (expand_last (length v) mb)))) x m.

Definition vadd (u v : vec) : vec := zip_with sadd u v.

(** Sum of the vectors of one token; [D] is the trailing dimension, which
    the result has also when there is no slot to add. *)
Definition vsum (D : nat) (vs : list vec) : vec :=
  foldl vadd (replicate D szero) vs.

(** [x.sum(2)] for a float tensor of shape [(B, T, W, D)]. *)
Definition sum_dim2 (D : nat) (x : float4) : float3 :=
  lmap (lmap (vsum D)) x.

(** [m.sum(2)] for a boolean tensor of shape [(B, T, W, 1)]: an integer
    tensor of shape [(B, T, 1)]. *)
Definition count_dim2 (m : bool4) : long3 :=
  lmap (lmap (fun slots : list (list bool) =>
    foldl (zip_with Z.add) [0] (lmap (lmap Z.b2z) slots))) m.

(** [x / n] for [x] of shape [(B, T, D)] and [n] of shape [(B, T, 1)]. *)
Definition div_count (x : float3) (n : long3) : float3 :=
  zip_with (zip_with
    (fun (v : vec) (c : list Z) =>
       zip_with sdiv_long v (expand_last (length v) c))) x n.

(** ** [forward] *)

(** The local variables of [forward] at its [return]. *)
Record forward_locals : Type := {
  embeddings : float3;
  span_embeddings : float4;
  span_mask : bool4;
  span_embeddings_sum : float3;
  span_embeddings_len : long3;
  orig_embeddings : float3
}.

Definition forward_body (self : PretrainedEmbeddingMismatchedEmbedder)
    (token_ids mask : long2) (offsets : spans3) (wordpiece_mask : long2)
    (type_ids segment_concat_mask : option long2) : result forward_locals :=
  let embeddings :=
    inner_forward (_matched_embedder self)
      token_ids wordpiece_mask type_ids segment_concat_mask in
  '(span_embeddings, span_mask) ←
    batched_span_select (contiguous embeddings) offsets;
  let span_mask := unsqueeze_last span_mask in
  let span_embeddings := mul_mask span_embeddings span_mask in
  let span_embeddings_sum := sum_dim2 (last_dim embeddings) span_embeddings in
  let span_embeddings_len := count_dim2 span_mask in
  let orig_embeddings := div_count span_embeddings_sum span_embeddings_len in
  mret {| embeddings := embeddings;
          span_embeddings := span_embeddings;
          span_mask := span_mask;
          span_embeddings_sum := span_embeddings_sum;
          span_embeddings_len := span_embeddings_len;
          orig_embeddings := orig_embeddings |}.

Definition forward (self : PretrainedEmbeddingMismatchedEmbedder)
    (token_ids mask : long2) (offsets : spans3) (wordpiece_mask : long2)
    (type_ids segment_concat_mask : option long2) : result float3 :=
  orig_embeddings <$>
    forward_body self token_ids mask offsets wordpiece_mask
      type_ids segment_concat_mask.

(** ** A concrete inner embedder, for examples

    A one-dimensional lookup: a real wordpiece is embedded as the vector
    holding its token id, a padding wordpiece (mask 0) as the zero
    vector. *)
Definition id_embedder : PretrainedEmbeddingEmbedder := {|
  inner_get_output_dim := 1;
  inner_forward := fun token_ids wordpiece_mask _ _ =>
    zip_with (zip_with (fun (t m : Z) =>
      [if m =? 0 then szero else Finite (Qc_of_Z t)])) token_ids wordpiece_mask
|}.

Definition id_module : PretrainedEmbeddingMismatchedEmbedder :=
  {| _matched_embedder := id_embedder |}.

(** ** [forward] on a store of tensor objects

    Python passes tensors by reference and [span_embeddings *= span_mask]
    updates a tensor object in place.  The store below holds the tensor
    objects; a reference is an index into it.  An operation that raises
    leaves the store as it was at that point. *)

Inductive tensor : Type :=
  | TLong2 (t : long2)
  | TSpans (t : spans3)
  | TFloat3 (t : float3)
  | TFloat4 (t : float4)
  | TBool3 (t : bool3)
  | TBool4 (t : bool4)
  | TLong3 (t : long3).

Abbreviation ref := nat (only parsing).
Abbreviation store := (list tensor) (only parsing).

Definition M (A : Type) : Type := store -> store * result A.

#[global] Instance M_ret : MRet M := fun _ a σ => (σ, Ok a).
#[global] Instance M_bind : MBind M := fun _ _ f m σ =>
  match m σ with
  | (σ1, Ok a) => f a σ1
  | (σ1, Raise e) => (σ1, Raise e)
  end.

(** A new tensor object. *)
Definition alloc (t : tensor) : M ref :=
  fun σ => (σ ++ [t], Ok (length σ)).

(** The tensor a reference points to. *)
Definition load (r : ref) : M tensor :=
  fun σ => (σ, match σ !! r with
               | Some t => Ok t
               | None => Raise InvalidReference
               end).

(** Overwrite the tensor object [r] in place. *)
Definition update (r : ref) (t : tensor) : M unit :=
  fun σ => if (r <? length σ)%nat then (<[r := t]> σ, Ok tt)
           else (σ, Raise InvalidReference).

Definition lift {A} (r : result A) : M A := fun σ => (σ, r).

Definition load_long2 (r : ref) : M long2 :=
  t ← load r;
  match t with TLong2 x => mret x | _ => lift (Raise ShapeMismatch) end.
Definition load_spans (r : ref) : M spans3 :=
  t ← load r;
  match t with TSpans x => mret x | _ => lift (Raise ShapeMismatch) end.
Definition load_float3 (r : ref) : M float3 :=
  t ← load r;
  match t with TFloat3 x => mret x | _ => lift (Raise ShapeMismatch) end.
Definition load_float4 (r : ref) : M float4 :=
  t ← load r;
  match t with TFloat4 x => mret x | _ => lift (Raise ShapeMismatch) end.
Definition load_bool3 (r : ref) : M bool3 :=
  t ← load r;
  match t with TBool3 x => mret x | _ => lift (Raise ShapeMismatch) end.
Definition load_bool4 (r : ref) : M bool4 :=
  t ← load r;
  match t with TBool4 x => mret x | _ => lift (Raise ShapeMismatch) end.
Definition load_long3 (r : ref) : M long3 :=
  t ← load r;
  match t with TLong3 x => mret x | _ => lift (Raise ShapeMismatch) end.

(** An optional argument: [None] or a reference. *)
Definition load_optional (r : option ref) : M (option long2) :=
  match r with
  | None => mret None
  | Some r => x ← load_long2 r; mret (Some x)
  end.

(** Modelled from the spec: the call of the inner embedder reads its
    arguments and returns a new tensor; the specification lists no other
    effect. *)
Definition matched_embedder_st (e : PretrainedEmbeddingEmbedder)
    (token_ids wordpiece_mask : ref) (type_ids segment_concat_mask : option ref)
    : M ref :=
  t ← load_long2 token_ids;
  w ← load_long2 wordpiece_mask;
  ty ← load_optional type_ids;
  sg ← load_optional segment_concat_mask;
  alloc (TFloat3 (inner_forward e t w ty sg)).

(** [t.contiguous()] of a tensor that is contiguous already: the tensor
    itself. *)
Definition contiguous_st (r : ref) : M ref := mret r.

(** Modelled from the spec: [util.batched_span_select] reads both
    arguments and returns two new tensors, the gathered span vectors and
    their mask. *)
Definition batched_span_select_st (target spans : ref) : M (ref * ref) :=
  t ← load_float3 target;
  s ← load_spans spans;
  '(e, m) ← lift (batched_span_select t s);
  re ← alloc (TFloat4 e);
  rm ← alloc (TBool3 m);
  mret (re, rm).

(** [m.unsqueeze(-1)]: a view of the mask.  Nothing writes to the mask or
    to its view, so the view is held as a tensor object of its own. *)
Definition unsqueeze_last_st (m : ref) : M ref :=
  x ← load_bool3 m;
  alloc (TBool4 (unsqueeze_last x)).

(** [x *= m]: the object [x] is overwritten, no tensor is created. *)
Definition imul_st (x m : ref) : M unit :=
  vx ← load_float4 x;
  vm ← load_bool4 m;
  update x (TFloat4 (mul_mask vx vm)).

(** [x.sum(2)]; [D] is the trailing dimension of [x], which [forward_st]
    reads off [embeddings] (the nested lists of an empty reduction do not
    hold it). *)
Definition sum_dim2_st (D : nat) (x : ref) : M ref :=
  vx ← load_float4 x;
  alloc (TFloat3 (sum_dim2 D vx)).

Definition count_dim2_st (m : ref) : M ref :=
  vm ← load_bool4 m;
  alloc (TLong3 (count_dim2 vm)).

Definition div_count_st (x n : ref) : M ref :=
  vx ← load_float3 x;
  vn ← load_long3 n;
  alloc (TFloat3 (div_count vx vn)).

Definition forward_st (self : PretrainedEmbeddingMismatchedEmbedder)
    (token_ids mask offsets wordpiece_mask : ref)
    (type_ids segment_concat_mask : option ref) : M ref :=
  embeddings ←
    matched_embedder_st (_matched_embedder self)
      token_ids wordpiece_mask type_ids segment_concat_mask;
  c ← contiguous_st embeddings;
  '(span_embeddings, span_mask) ← batched_span_select_st c offsets;
  span_mask ← unsqueeze_last_st span_mask;
  imul_st span_embeddings span_mask;;
  e ← load_float3 embeddings;
  span_embeddings_sum ← sum_dim2_st (last_dim e) span_embeddings;
  span_embeddings_len ← count_dim2_st span_mask;
  orig_embeddings ← div_count_st span_embeddings_sum span_embeddings_len;
  mret orig_embeddings.

(** [get_output_dim] as a method call: it reads no tensor and creates
    none. *)
Definition get_output_dim_st (self : PretrainedEmbeddingMismatchedEmbedder)
    : M Z :=
  mret (get_output_dim self).

(** ** Reference notions used in the statements *)

(** The vectors at the wordpiece positions [start .. end] inclusive. *)
Definition span_vectors (row : list vec) (sp : Z * Z) : list vec :=
  take (span_length sp) (drop (Z.to_nat sp.1) row).

(** Elementwise arithmetic mean of a list of vectors of dimension [D]:
    coordinate [d] is the sum of the [d]-th coordinates divided by the
    number of vectors. *)
Definition mean_of (D : nat) (vs : list vec) : vec :=
  (fun d => sdiv_long (foldr sadd szero ((fun v : vec => v !!! d) <$> vs))
                      (Z.of_nat (length vs)))
  <$> seq 0 D.

(** Number of real wordpieces ([wordpiece_mask] not 0) at the positions
    [start .. end] of one batch row. *)
Definition real_count (wordpiece_mask_row : list Z) (sp : Z * Z) : Z :=
  Z.of_nat (length (filter (fun m => m ≠ 0)
    (take (span_length sp) (drop (Z.to_nat sp.1) wordpiece_mask_row)))).

(** The vectors at the real wordpiece positions of [start .. end]. *)
Definition real_span_vectors (row : list vec) (wordpiece_mask_row : list Z)
    (sp : Z * Z) : list vec :=
  (filter (fun p : vec * Z => p.2 ≠ 0)
     (zip (span_vectors row sp)
          (take (span_length sp) (drop (Z.to_nat sp.1) wordpiece_mask_row)))).*1.

(** Every span of [offsets] has both ends in [[0, N)]. *)
Definition offsets_in_range (N : nat) (offsets : spans3) : bool :=
  forallb (forallb (span_in_range N)) offsets.

(** Every span of [offsets] satisfies [0 <= start <= end < N]. *)
Definition offsets_valid (N : nat) (offsets : spans3) : bool :=
  forallb (forallb (fun sp : Z * Z =>
    (0 <=? sp.1) && (sp.1 <=? sp.2) && (sp.2 <? Z.of_nat N))) offsets.

(** Entry [(b, j)] of a tensor of rank at least 2. *)
Definition at2 {A} (t : list (list A)) (b j : nat) : option A :=
  t !! b ≫= fun row => row !! j.

(** The documented shapes of the four required arguments of [forward]:
    [token_ids] and [wordpiece_mask] are [(B, N)], [mask] and [offsets]
    are [(B, T)]. *)
Definition shape_contract (B N T : nat) (token_ids mask : long2)
    (offsets : spans3) (wordpiece_mask : long2) : bool :=
  has_shape2 B N token_ids && has_shape2 B T mask
  && has_shape2 B T offsets && has_shape2 B N wordpiece_mask.

(** Rational value of a finite entry, for reading results. *)
Definition scalar_Q (x : scalar) : option Q :=
  match x with Finite q => Some (this q) | _ => None end.
Definition float3_Q (t : float3) : list (list (list (option Q))) :=
  lmap (lmap (lmap scalar_Q)) t.

(** ** The specification's reading of the span mask

    The specification describes the span mask as derived from
    [wordpiece_mask] as well as from the span bounds.  The three
    propositions below state, for one call, what that reading promises. *)

(** The output at every token is the sum of the span vectors divided by
    the count of real wordpieces in the span, when every span holds a real
    wordpiece. *)
Definition pools_over_real_wordpieces
    (self : PretrainedEmbeddingMismatchedEmbedder)
    (token_ids mask : long2) (offsets : spans3) (wordpiece_mask : long2)
    (type_ids segment_concat_mask : option long2) : Prop :=
  let emb := inner_forward (_matched_embedder self)
               token_ids wordpiece_mask type_ids segment_concat_mask in
  let D := Z.to_nat (get_output_dim self) in
  (forall b j wrow sp,
     wordpiece_mask !! b = Some wrow -> at2 offsets b j = Some sp ->
     1 <= real_count wrow sp) ->
  forall out b j row wrow sp,
    forward self token_ids mask offsets wordpiece_mask
      type_ids segment_concat_mask = Ok out ->
    emb !! b = Some row -> wordpiece_mask !! b = Some wrow ->
    at2 offsets b j = Some sp ->
    at2 out b j
    = Some ((fun x => sdiv_long x (real_count wrow sp))
            <$> vsum D (span_vectors row sp)).

(** A wordpiece with [wordpiece_mask = 0] adds nothing to the span sum and
    nothing to the divisor. *)
Definition masked_wordpieces_excluded
    (self : PretrainedEmbeddingMismatchedEmbedder)
    (token_ids mask : long2) (offsets : spans3) (wordpiece_mask : long2)
    (type_ids segment_concat_mask : option long2) : Prop :=
  let emb := inner_forward (_matched_embedder self)
               token_ids wordpiece_mask type_ids segment_concat_mask in
  let D := Z.to_nat (get_output_dim self) in
  forall L b j row wrow sp,
    forward_body self token_ids mask offsets wordpiece_mask
      type_ids segment_concat_mask = Ok L ->
    emb !! b = Some row -> wordpiece_mask !! b = Some wrow ->
    at2 offsets b j = Some sp ->
    at2 (span_embeddings_sum L) b j
      = Some (vsum D (real_span_vectors row wrow sp)) /\
    at2 (span_embeddings_len L) b j = Some [real_count wrow sp].


(** A call whose offsets leave the wordpiece range, or whose argument
    shapes fit no [(B, N, T)] of the documented contract, fails. *)
Definition contract_violation_fails
    (self : PretrainedEmbeddingMismatchedEmbedder)
    (token_ids mask : long2) (offsets : spans3) (wordpiece_mask : long2)
    (type_ids segment_concat_mask : option long2) : Prop :=
  ((exists b j row sp,
      inner_forward (_matched_embedder self)
        token_ids wordpiece_mask type_ids segment_concat_mask !! b = Some row /\
      at2 offsets b j = Some sp /\
      span_in_range (length row) sp = false)
   \/ (forall B N T,
         shape_contract B N T token_ids mask offsets wordpiece_mask = false)) ->
  exists e,
    forward self token_ids mask offsets wordpiece_mask
      type_ids segment_concat_mask = Raise e.

(** ** Store specifications *)

(** [preserves n m Q]: run on a store of at least [n] tensor objects, [m]
    leaves the first [n] of them as they are, removes none, and a value it
    returns satisfies [Q]. *)
Definition preserves {A} (n : nat) (m : M A) (Q : A -> Prop) : Prop :=
  forall σ : list tensor,
    (n <= length σ)%nat ->
    take n (m σ).1 = take n σ /\
    (n <= length (m σ).1)%nat /\
    forall a, (m σ).2 = Ok a -> Q a.

(** An optional argument refers to the tensor [v], or is absent. *)
Definition optional_holds (σ : list tensor) (r : option nat)
    (v : option (list (list Z))) : Prop :=
  match r, v with
  | None, None => True
  | Some r, Some v => σ !! r = Some (TLong2 v)
  | _, _ => False
  end.

(** ** Notions for the remaining statements *)

(** Entry [(b, j, k)] of a tensor of rank at least 3. *)
Definition at3 {A} (t : list (list (list A))) (b j k : nat) : option A :=
  at2 t b j ≫= fun slots => slots !! k.

(** An inner embedder with a non-finite table entry: a one-dimensional
    lookup that embeds token id 0 as [+Inf] and every other id as the
    vector holding it. *)
Definition inf_embedder : PretrainedEmbeddingEmbedder := {|
  inner_get_output_dim := 1;
  inner_forward := fun token_ids _ _ _ =>
    lmap (lmap (fun t : Z => [if t =? 0 then PosInf else Finite (Qc_of_Z t)]))
         token_ids
|}.

Definition inf_module : PretrainedEmbeddingMismatchedEmbedder :=
  {| _matched_embedder := inf_embedder |}.

(** A token whose span is one in-bounds wordpiece gets the vector of that
    wordpiece, unchanged, whatever the inner embedder returns elsewhere. *)
Definition single_wordpiece_unchanged
    (self : PretrainedEmbeddingMismatchedEmbedder)
    (token_ids mask : long2) (offsets : spans3) (wordpiece_mask : long2)
    (type_ids segment_concat_mask : option long2) : Prop :=
  let emb := inner_forward (_matched_embedder self)
               token_ids wordpiece_mask type_ids segment_concat_mask in
  forall out b j row sp v,
    forward self token_ids mask offsets wordpiece_mask
      type_ids segment_concat_mask = Ok out ->
    emb !! b = Some row -> at2 offsets b j = Some sp ->
    sp.1 = sp.2 -> row !! Z.to_nat sp.1 = Some v ->
    at2 out b j = Some v.

(** ** The computation of [forward] for one token

    The three definitions below name what the tensor operations of
    [forward] compute for one original token; [forward_body_eq] proves
    that they do. *)

(** The slots of one token after [span_embeddings *= span_mask]. *)
Definition masked_slots (row : list vec) (W : nat) (sp : Z * Z) : list vec :=
  zip_with (fun (v : vec) (mb : list bool) =>
              zip_with smul_bool v (expand_last (length v) mb))
           (gather_span row W sp)
           ((fun b : bool => [b]) <$> span_mask_of W sp).

(** The entry of [span_embeddings_len] for one token. *)
Definition slot_count (W : nat) (sp : Z * Z) : list Z :=
  foldl (zip_with Z.add) [0]
        (lmap Z.b2z <$> ((fun b : bool => [b]) <$> span_mask_of W sp)).

(** The entry of [orig_embeddings] for one token. *)
Definition pool_token (D : nat) (row : list vec) (W : nat) (sp : Z * Z) : vec :=
  let s := vsum D (masked_slots row W sp) in
  zip_with sdiv_long s (expand_last (length s) (slot_count W sp)).

(** ** Shapes of the intermediate tensors *)

(** A rank-3 tensor of any entry type has shape [(B, T, W)]. *)
Definition has_shape3g {A} (B T W : nat) (t : list (list (list A))) : bool :=
  (length t =? B)%nat && forallb (has_shape2 T W) t.

(** A rank-4 tensor of any entry type has shape [(B, T, W, D)]. *)
Definition has_shape4g {A} (B T W D : nat) (t : list (list (list (list A))))
    : bool :=
  (length t =? B)%nat && forallb (has_shape3g T W D) t.

(** * Properties *)

(** ** Float entries *)

Lemma Qc_of_Z_0 : Qc_of_Z 0 = 0%Qc.
Proof. apply Qc_is_canon. reflexivity. Qed.

Lemma Qc_of_Z_1 : Qc_of_Z 1 = 1%Qc.
Proof. apply Qc_is_canon. reflexivity. Qed.

Lemma sadd_zero_r x : sadd x szero = x.
Proof.
  destruct x; try reflexivity.
  unfold szero. cbn. rewrite Qc_of_Z_0. f_equal. apply Qcplus_0_r.
Qed.

Lemma sadd_zero_l x : sadd szero x = x.
Proof.
  destruct x; try reflexivity.
  unfold szero. cbn. rewrite Qc_of_Z_0. f_equal. apply Qcplus_0_l.
Qed.

Lemma sadd_assoc x y z : sadd x (sadd y z) = sadd (sadd x y) z.
Proof.
  destruct x, y, z; try reflexivity.
  cbn. f_equal. apply Qcplus_assoc.
Qed.

Lemma smul_bool_true x : smul_bool x true = x.
Proof. reflexivity. Qed.

Lemma smul_bool_false x : is_finite x = true -> smul_bool x false = szero.
Proof. by destruct x. Qed.

Lemma sdiv_long_1 x : sdiv_long x 1 = x.
Proof.
  destruct x; try reflexivity.
  cbn. rewrite Qc_of_Z_1. f_equal. apply (right_id 1%Qc Qcdiv).
Qed.


(** ** Vectors *)

Lemma foldl_sadd_foldr a xs :
  foldl sadd a xs = sadd a (foldr sadd szero xs).
Proof.
  revert a. induction xs as [|x xs IH]; intros a; simpl.
  - by rewrite sadd_zero_r.
  - by rewrite IH, sadd_assoc.
Qed.

Lemma length_vadd u v : length v = length u -> length (vadd u v) = length u.
Proof. intros H. unfold vadd. rewrite length_zip_with. lia. Qed.

Lemma length_foldl_vadd a vs :
  Forall (fun v : vec => length v = length a) vs ->
  length (foldl vadd a vs) = length a.
Proof.
  revert a. induction vs as [|v vs IH]; intros a Hall; simpl; [done|].
  inversion Hall as [|?? Hv Hvs]; subst.
  rewrite IH; [by apply length_vadd|].
  rewrite length_vadd by done. done.
Qed.

Lemma length_vsum D vs :
  Forall (fun v : vec => length v = D) vs -> length (vsum D vs) = D.
Proof.
  intros H. unfold vsum. rewrite length_foldl_vadd; rewrite length_replicate; done.
Qed.

Lemma lookup_foldl_vadd a vs d x :
  Forall (fun v : vec => length v = length a) vs ->
  a !! d = Some x ->
  foldl vadd a vs !! d = Some (foldl sadd x ((fun v : vec => v !!! d) <$> vs)).
Proof.
  revert a x. induction vs as [|v vs IH]; intros a x Hall Hd; simpl; [done|].
  inversion Hall as [|?? Hv Hvs]; subst.
  apply IH.
  - by rewrite length_vadd.
  - unfold vadd. rewrite lookup_zip_with, Hd. simpl.
    assert (d < length v)%nat as Hlt.
    { rewrite Hv. by eapply lookup_lt_Some. }
    by rewrite (list_lookup_lookup_total_lt v d Hlt).
Qed.

(** The vector-wise sum of [forward] is the coordinate-wise sum. *)
Lemma vsum_coordinates D vs :
  Forall (fun v : vec => length v = D) vs ->
  vsum D vs =
  (fun d => foldr sadd szero ((fun v : vec => v !!! d) <$> vs)) <$> seq 0 D.
Proof.
  intros Hall.
  apply (list_eq_same_length _ _ D).
  - by rewrite length_fmap, length_seq.
  - by apply length_vsum.
  - intros d x y Hd Hx Hy.
    rewrite list_lookup_fmap, lookup_seq_lt in Hy by done. simpl in Hy.
    unfold vsum in Hx.
    erewrite lookup_foldl_vadd in Hx.
    + rewrite foldl_sadd_foldr, sadd_zero_l in Hx. congruence.
    + by rewrite length_replicate.
    + by apply lookup_replicate_2.
Qed.

Lemma vadd_zeros v D : length v = D -> vadd v (replicate D szero) = v.
Proof.
  intros <-. unfold vadd. rewrite zip_with_replicate_r_eq by done.
  induction v as [|x v IH]; csimpl; [done|].
  f_equal; [apply sadd_zero_r | apply IH].
Qed.

Lemma foldl_vadd_zeros a n :
  foldl vadd a (replicate n (replicate (length a) szero)) = a.
Proof.
  induction n as [|n IH]; simpl; [done|].
  by rewrite vadd_zeros.
Qed.

Lemma vsum_app_zeros D vs n :
  Forall (fun v : vec => length v = D) vs ->
  vsum D (vs ++ replicate n (replicate D szero)) = vsum D vs.
Proof.
  intros Hall. unfold vsum. rewrite foldl_app.
  assert (length (foldl vadd (replicate D szero) vs) = D) as Hlen
    by by apply length_vsum.
  rewrite <- Hlen at 2. apply foldl_vadd_zeros.
Qed.

Lemma mean_of_vsum D vs :
  Forall (fun v : vec => length v = D) vs ->
  mean_of D vs =
  (fun x => sdiv_long x (Z.of_nat (length vs))) <$> vsum D vs.
Proof.
  intros Hall. rewrite vsum_coordinates by done.
  unfold mean_of. by rewrite <- list_fmap_compose.
Qed.

(** ** Lists *)

Lemma forallb_Forall_true {A} (f : A -> bool) (l : list A) :
  forallb f l = true <-> Forall (fun x => f x = true) l.
Proof.
  induction l as [|x l IH]; simpl.
  - split; [constructor | done].
  - rewrite andb_true_iff, IH. split.
    + intros [??]. by constructor.
    + by inversion 1.
Qed.

Lemma fmap_constant {A B} (f : A -> B) (l : list A) (c : B) :
  Forall (fun x => f x = c) l -> f <$> l = replicate (length l) c.
Proof. induction 1 as [|x l Hx _ IH]; csimpl; [done|]. by rewrite Hx, IH. Qed.

Lemma fmap_identity {A} (f : A -> A) (l : list A) :
  (forall x, f x = x) -> f <$> l = l.
Proof. intros Hf. induction l as [|x l IH]; csimpl; [done|]. by rewrite Hf, IH. Qed.

Lemma zip_with_zip_with_fmap {A B C D E}
    (f : C -> D -> E) (g : A -> B -> C) (h : B -> D) (la : list A) (lb : list B) :
  zip_with f (zip_with g la lb) (h <$> lb)
  = zip_with (fun a b => f (g a b) (h b)) la lb.
Proof.
  revert lb. induction la as [|a la IH]; intros [|b lb]; csimpl; [done..|].
  by rewrite IH.
Qed.

Lemma zip_with_fmap_fmap {A B C D} (f : B -> C -> D) (g : A -> B) (h : A -> C)
    (l : list A) :
  zip_with f (g <$> l) (h <$> l) = (fun x => f (g x) (h x)) <$> l.
Proof. induction l as [|x l IH]; csimpl; [done|]. by rewrite IH. Qed.

Lemma zip_with_ext_in {A B C} (f g : A -> B -> C) (la : list A) (lb : list B) :
  (forall a b, f a b = g a b) -> zip_with f la lb = zip_with g la lb.
Proof.
  intros Hfg. revert lb.
  induction la as [|a la IH]; intros [|b lb]; csimpl; [done..|].
  by rewrite Hfg, IH.
Qed.

Lemma foldl_add_replicate (a c : Z) (n : nat) :
  foldl (zip_with Z.add) [a] (replicate n [c]) = [a + Z.of_nat n * c].
Proof.
  revert a. induction n as [|n IH]; intros a; simpl.
  - f_equal. lia.
  - rewrite IH. f_equal. lia.
Qed.

(** ** One span *)

Section one_span.
Variables (row : list vec) (W D : nat) (sp : Z * Z).
Hypothesis fits : (span_length sp <= W)%nat.

Lemma seq_split :
  seq 0 W = seq 0 (span_length sp) ++ seq (span_length sp) (W - span_length sp).
Proof.
  replace W with (span_length sp + (W - span_length sp))%nat at 1 by lia.
  by rewrite seq_app.
Qed.

Lemma span_mask_of_split :
  span_mask_of W sp
  = replicate (span_length sp) true ++ replicate (W - span_length sp) false.
Proof.
  unfold span_mask_of. rewrite seq_split, fmap_app. f_equal.
  - rewrite (fmap_constant _ _ true), length_seq; [done|].
    apply Forall_seq. intros j Hj. apply Nat.ltb_lt. lia.
  - rewrite (fmap_constant _ _ false), length_seq; [done|].
    apply Forall_seq. intros j Hj. apply Nat.ltb_ge. lia.
Qed.

Lemma slot_count_eq : slot_count W sp = [Z.of_nat (span_length sp)].
Proof.
  unfold slot_count. rewrite span_mask_of_split.
  rewrite !fmap_app, !fmap_replicate, foldl_app.
  change (lmap Z.b2z [true]) with [1].
  change (lmap Z.b2z [false]) with [0].
  rewrite !foldl_add_replicate. f_equal. lia.
Qed.

Hypothesis inside : (Z.to_nat sp.1 + span_length sp <= length row)%nat.

Lemma length_span_vectors : length (span_vectors row sp) = span_length sp.
Proof using inside.
  clear fits. unfold span_vectors. rewrite length_take, length_drop. lia.
Qed.

Lemma gather_span_split :
  gather_span row W sp
  = span_vectors row sp ++ replicate (W - span_length sp) (row !!! 0%nat).
Proof.
  unfold gather_span. rewrite seq_split, fmap_app. f_equal.
  - apply (list_eq_same_length _ _ (span_length sp)).
    + apply length_span_vectors.
    + by rewrite length_fmap, length_seq.
    + intros i x y Hi Hx Hy.
      rewrite list_lookup_fmap, lookup_seq_lt in Hx by done.
      simpl in Hx. injection Hx as <-.
      unfold span_vectors in Hy.
      rewrite lookup_take_lt, lookup_drop in Hy by done.
      unfold span_index. apply Nat.ltb_lt in Hi. rewrite Hi.
      by apply list_lookup_total_correct.
  - rewrite (fmap_constant _ _ (row !!! 0%nat)), length_seq; [done|].
    apply Forall_seq. intros j Hj. unfold span_index.
    replace (j <? span_length sp)%nat with false; [done|].
    symmetry. apply Nat.ltb_ge. lia.
Qed.

Lemma masked_slots_split :
  length (row !!! 0%nat) = D ->
  forallb is_finite (row !!! 0%nat) = true ->
  masked_slots row W sp
  = span_vectors row sp ++ replicate (W - span_length sp) (replicate D szero).
Proof.
  intros HD Hfin. unfold masked_slots.
  rewrite gather_span_split, span_mask_of_split.
  rewrite fmap_app, !fmap_replicate.
  rewrite zip_with_app by (by rewrite length_span_vectors, length_replicate).
  f_equal.
  - rewrite zip_with_replicate_r_eq by apply length_span_vectors.
    apply fmap_identity. intros v. unfold flip. simpl.
    rewrite zip_with_replicate_r_eq by done.
    by apply fmap_identity.
  - rewrite zip_with_replicate. f_equal. simpl.
    rewrite zip_with_replicate_r_eq by done.
    rewrite (fmap_constant _ _ szero), HD; [done|].
    apply forallb_Forall_true in Hfin.
    eapply List.Forall_impl; [|exact Hfin].
    intros x Hx. by apply smul_bool_false.
Qed.

Hypothesis row_dim : Forall (fun v : vec => length v = D) row.

Lemma span_vectors_dim : Forall (fun v : vec => length v = D) (span_vectors row sp).
Proof using row_dim. unfold span_vectors. by apply Forall_take, Forall_drop. Qed.

(** For a span inside the row, the pooling of [forward] is the mean of
    the vectors at [start .. end]. *)
Lemma pool_token_mean :
  length (row !!! 0%nat) = D ->
  forallb is_finite (row !!! 0%nat) = true ->
  pool_token D row W sp = mean_of D (span_vectors row sp).
Proof.
  intros HD Hfin. unfold pool_token.
  rewrite masked_slots_split, slot_count_eq by done.
  rewrite vsum_app_zeros by apply span_vectors_dim.
  rewrite mean_of_vsum by apply span_vectors_dim.
  rewrite length_span_vectors. simpl.
  by rewrite zip_with_replicate_r_eq.
Qed.

Lemma masked_slots_sum :
  length (row !!! 0%nat) = D ->
  forallb is_finite (row !!! 0%nat) = true ->
  vsum D (masked_slots row W sp) = vsum D (span_vectors row sp).
Proof.
  intros HD Hfin. rewrite masked_slots_split by done.
  apply vsum_app_zeros, span_vectors_dim.
Qed.
End one_span.

(** ** The whole batch *)

Lemma fmap_zip_with_out {A B C D} (g : C -> D) (f : A -> B -> C)
    (la : list A) (lb : list B) :
  g <$> zip_with f la lb = zip_with (fun a b => g (f a b)) la lb.
Proof.
  revert lb. induction la as [|a la IH]; intros [|b lb]; csimpl; [done..|].
  by rewrite IH.
Qed.

Lemma at2_zip_with_fmap {A B C} (f : A -> B -> C) (la : list A)
    (lb : list (list B)) (b j : nat) (a : A) (x : B) :
  la !! b = Some a -> at2 lb b j = Some x ->
  at2 (zip_with (fun a (l : list B) => f a <$> l) la lb) b j = Some (f a x).
Proof.
  unfold at2. intros Ha Hx. rewrite lookup_zip_with, Ha. simpl.
  destruct (lb !! b) as [l|]; simpl in *; [|done].
  by rewrite list_lookup_fmap, Hx.
Qed.

Lemma at2_fmap_fmap {A B} (f : A -> B) (l : list (list A)) (b j : nat) :
  at2 ((fun r : list A => f <$> r) <$> l) b j = f <$> at2 l b j.
Proof.
  unfold at2. rewrite list_lookup_fmap.
  destruct (l !! b) as [r|]; simpl; [|done].
  by rewrite list_lookup_fmap.
Qed.

Lemma batched_span_select_ok target spans :
  length target = length spans ->
  spans_in_range target spans = true ->
  batched_span_select target spans
  = Ok (zip_with (fun (row : list vec) (sps : list (Z * Z)) =>
                    gather_span row (max_span_length spans) <$> sps) target spans,
        (fun sps : list (Z * Z) =>
           span_mask_of (max_span_length spans) <$> sps) <$> spans).
Proof.
  intros Hl Hr. unfold batched_span_select.
  by rewrite Hl, Nat.eqb_refl, Hr.
Qed.

Section tensor_ops.
Variables (emb : float3) (offsets : spans3) (W D : nat).

Lemma unsqueeze_last_eq :
  unsqueeze_last
    ((fun sps : list (Z * Z) => span_mask_of W <$> sps) <$> offsets)
  = (fun sps : list (Z * Z) =>
       (fun sp => (fun b : bool => [b]) <$> span_mask_of W sp) <$> sps)
    <$> offsets.
Proof.
  unfold unsqueeze_last. rewrite <- list_fmap_compose.
  apply list_fmap_ext. intros _ sps _. simpl.
  by rewrite <- list_fmap_compose.
Qed.

Lemma mul_mask_eq :
  mul_mask
    (zip_with (fun (row : list vec) (sps : list (Z * Z)) =>
                 gather_span row W <$> sps) emb offsets)
    ((fun sps : list (Z * Z) =>
        (fun sp => (fun b : bool => [b]) <$> span_mask_of W sp) <$> sps)
     <$> offsets)
  = zip_with (fun row (sps : list (Z * Z)) => masked_slots row W <$> sps)
             emb offsets.
Proof.
  unfold mul_mask. rewrite zip_with_zip_with_fmap.
  apply zip_with_ext_in. intros row sps.
  by rewrite zip_with_fmap_fmap.
Qed.

Lemma sum_dim2_eq :
  sum_dim2 D
    (zip_with (fun row (sps : list (Z * Z)) => masked_slots row W <$> sps)
              emb offsets)
  = zip_with (fun row (sps : list (Z * Z)) =>
                (fun sp => vsum D (masked_slots row W sp)) <$> sps)
             emb offsets.
Proof.
  unfold sum_dim2. rewrite fmap_zip_with_out.
  apply zip_with_ext_in. intros row sps.
  by rewrite <- list_fmap_compose.
Qed.

Lemma count_dim2_eq :
  count_dim2
    ((fun sps : list (Z * Z) =>
        (fun sp => (fun b : bool => [b]) <$> span_mask_of W sp) <$> sps)
     <$> offsets)
  = (fun sps : list (Z * Z) => slot_count W <$> sps) <$> offsets.
Proof.
  unfold count_dim2. rewrite <- list_fmap_compose.
  apply list_fmap_ext. intros _ sps _. simpl.
  by rewrite <- list_fmap_compose.
Qed.

Lemma div_count_eq :
  div_count
    (zip_with (fun row (sps : list (Z * Z)) =>
                 (fun sp => vsum D (masked_slots row W sp)) <$> sps)
              emb offsets)
    ((fun sps : list (Z * Z) => slot_count W <$> sps) <$> offsets)
  = zip_with (fun row (sps : list (Z * Z)) => pool_token D row W <$> sps)
             emb offsets.
Proof.
  unfold div_count. rewrite zip_with_zip_with_fmap.
  apply zip_with_ext_in. intros row sps.
  by rewrite zip_with_fmap_fmap.
Qed.
End tensor_ops.

(** What [forward] holds in its local variables, token by token. *)
Lemma forward_body_eq self token_ids mask offsets wordpiece_mask type_ids seg :
  let emb := inner_forward (_matched_embedder self)
               token_ids wordpiece_mask type_ids seg in
  let W := max_span_length offsets in
  let D := last_dim emb in
  length emb = length offsets ->
  spans_in_range emb offsets = true ->
  forward_body self token_ids mask offsets wordpiece_mask type_ids seg
  = Ok {| embeddings := emb;
          span_embeddings :=
            zip_with (fun row (sps : list (Z * Z)) => masked_slots row W <$> sps)
                     emb offsets;
          span_mask :=
            (fun sps : list (Z * Z) =>
               (fun sp => (fun b : bool => [b]) <$> span_mask_of W sp) <$> sps)
            <$> offsets;
          span_embeddings_sum :=
            zip_with (fun row (sps : list (Z * Z)) =>
                        (fun sp => vsum D (masked_slots row W sp)) <$> sps)
                     emb offsets;
          span_embeddings_len :=
            (fun sps : list (Z * Z) => slot_count W <$> sps) <$> offsets;
          orig_embeddings :=
            zip_with (fun row (sps : list (Z * Z)) => pool_token D row W <$> sps)
                     emb offsets |}.
Proof.
  intros emb W D Hl Hr. unfold forward_body, contiguous. fold emb.
  rewrite batched_span_select_ok by done. fold W D.
  unfold mbind, result_bind, mret, result_ret. cbv beta iota zeta.
  rewrite unsqueeze_last_eq, mul_mask_eq, sum_dim2_eq, count_dim2_eq, div_count_eq.
  done.
Qed.

Lemma has_shape3_inv B N D t :
  has_shape3 B N D t = true ->
  length t = B /\
  forall b row, t !! b = Some row ->
    length row = N /\ Forall (fun v : vec => length v = D) row.
Proof.
  unfold has_shape3. rewrite andb_true_iff, Nat.eqb_eq, forallb_Forall_true.
  intros [Hl Hall]. split; [done|]. intros b row Hb.
  pose proof (Forall_lookup_1 _ _ _ _ Hall Hb) as Hrow. simpl in Hrow.
  apply andb_true_iff in Hrow as [Hn Hd].
  apply Nat.eqb_eq in Hn. apply forallb_Forall_true in Hd.
  split; [done|].
  eapply List.Forall_impl; [|exact Hd]. intros v Hv. by apply Nat.eqb_eq.
Qed.

Lemma all_finite_inv t b row :
  all_finite t = true -> t !! b = Some row ->
  Forall (fun v : vec => forallb is_finite v = true) row.
Proof.
  unfold all_finite. rewrite forallb_Forall_true. intros Hall Hb.
  pose proof (Forall_lookup_1 _ _ _ _ Hall Hb) as Hrow. simpl in Hrow.
  by apply forallb_Forall_true.
Qed.

Lemma has_shape2_inv {A} B T (t : list (list A)) :
  has_shape2 B T t = true ->
  length t = B /\ forall b row, t !! b = Some row -> length row = T.
Proof.
  unfold has_shape2. rewrite andb_true_iff, Nat.eqb_eq, forallb_Forall_true.
  intros [Hl Hall]. split; [done|]. intros b row Hb.
  pose proof (Forall_lookup_1 _ _ _ _ Hall Hb) as Hrow. simpl in Hrow.
  by apply Nat.eqb_eq.
Qed.

Lemma spans_in_range_intro N (target : float3) (spans : spans3) :
  (forall b row, target !! b = Some row -> length row = N) ->
  offsets_in_range N spans = true ->
  spans_in_range target spans = true.
Proof.
  unfold spans_in_range, offsets_in_range. revert spans.
  induction target as [|row target IH]; intros [|sps spans] Hrows Hin;
    simpl in *; [done..|].
  apply andb_true_iff in Hin as [Hs Hin].
  rewrite (Hrows 0%nat row eq_refl), Hs. simpl.
  apply IH; [|done]. intros b r Hb. by apply (Hrows (S b)).
Qed.

Lemma spans_in_range_elim N (target : float3) (spans : spans3) b j row sp :
  spans_in_range target spans = true ->
  target !! b = Some row -> length row = N -> at2 spans b j = Some sp ->
  span_in_range N sp = true.
Proof.
  unfold spans_in_range, at2. rewrite forallb_Forall_true.
  intros Hall Hrow HN Hsp.
  destruct (spans !! b) as [sps|] eqn:Hb; simpl in Hsp; [|done].
  assert (zip target spans !! b = Some (row, sps)) as Hz.
  { by rewrite lookup_zip_with, Hrow, Hb. }
  pose proof (Forall_lookup_1 _ _ _ _ Hall Hz) as Hin. simpl in Hin.
  apply forallb_Forall_true in Hin.
  pose proof (Forall_lookup_1 _ _ _ _ Hin Hsp) as Hj. simpl in Hj.
  by rewrite <- HN.
Qed.

Lemma offsets_valid_in_range N offsets :
  offsets_valid N offsets = true -> offsets_in_range N offsets = true.
Proof.
  unfold offsets_valid, offsets_in_range. rewrite !forallb_Forall_true.
  intros H. eapply List.Forall_impl; [|exact H]. intros sps.
  rewrite !forallb_Forall_true.
  intros H'. eapply List.Forall_impl; [|exact H']. intros [s e]. simpl.
  unfold span_in_range. simpl.
  rewrite !andb_true_iff, !Z.leb_le, !Z.ltb_lt. lia.
Qed.

Lemma offsets_valid_at N offsets b j sp :
  offsets_valid N offsets = true -> at2 offsets b j = Some sp ->
  0 <= sp.1 <= sp.2 /\ sp.2 < Z.of_nat N.
Proof.
  unfold offsets_valid, at2. rewrite forallb_Forall_true. intros Hall Hsp.
  destruct (offsets !! b) as [sps|] eqn:Hb; simpl in Hsp; [|done].
  pose proof (Forall_lookup_1 _ _ _ _ Hall Hb) as Hin. simpl in Hin.
  apply forallb_Forall_true in Hin.
  pose proof (Forall_lookup_1 _ _ _ _ Hin Hsp) as Hj. simpl in Hj.
  rewrite !andb_true_iff, !Z.leb_le, !Z.ltb_lt in Hj. lia.
Qed.

Lemma span_length_le_max (offsets : spans3) b j sp :
  at2 offsets b j = Some sp ->
  (span_length sp <= max_span_length offsets)%nat.
Proof.
  unfold at2, max_span_length. intros Hsp.
  destruct (offsets !! b) as [sps|] eqn:Hb; simpl in Hsp; [|done].
  apply max_list_elem_of_le, list_elem_of_fmap_2.
  apply list_elem_of_In, in_concat. exists sps. split.
  - apply list_elem_of_In. by eapply list_elem_of_lookup_2.
  - apply list_elem_of_In. by eapply list_elem_of_lookup_2.
Qed.

Lemma last_dim_shape B N D (t : float3) b row :
  has_shape3 B N D t = true -> t !! b = Some row -> (0 < N)%nat ->
  last_dim t = D.
Proof.
  intros Hs Hb HN. apply has_shape3_inv in Hs as [_ Hrows].
  destruct t as [|r0 t]; [done|].
  destruct (Hrows 0%nat r0 eq_refl) as [Hl Hd].
  destruct r0 as [|v r0]; simpl in *; [lia|].
  by inversion Hd.
Qed.

Lemma span_in_range_inside N sp :
  span_in_range N sp = true ->
  (0 < N)%nat /\ (Z.to_nat sp.1 + span_length sp <= N)%nat.
Proof.
  unfold span_in_range, span_length.
  rewrite !andb_true_iff, !Z.leb_le, !Z.ltb_lt. lia.
Qed.

Lemma offsets_in_range_at N offsets b j sp :
  offsets_in_range N offsets = true -> at2 offsets b j = Some sp ->
  span_in_range N sp = true.
Proof.
  unfold offsets_in_range, at2. rewrite forallb_Forall_true. intros Hall Hsp.
  destruct (offsets !! b) as [sps|] eqn:Hb; simpl in Hsp; [|done].
  pose proof (Forall_lookup_1 _ _ _ _ Hall Hb) as Hin. simpl in Hin.
  apply forallb_Forall_true in Hin.
  apply (Forall_lookup_1 _ _ _ _ Hin Hsp).
Qed.

(** What the shape contract gives for the token at [(b, j)]. *)
Lemma token_facts (emb : float3) (offsets : spans3) B N D b j sp :
  has_shape3 B N D emb = true ->
  length offsets = B ->
  offsets_in_range N offsets = true ->
  at2 offsets b j = Some sp ->
  exists row,
    emb !! b = Some row /\
    Forall (fun v : vec => length v = D) row /\
    (Z.to_nat sp.1 + span_length sp <= length row)%nat /\
    (span_length sp <= max_span_length offsets)%nat /\
    last_dim emb = D /\
    length (row !!! 0%nat) = D /\
    (0 < length row)%nat.
Proof.
  intros Hs Hl Hin Hsp.
  pose proof (offsets_in_range_at _ _ _ _ _ Hin Hsp) as Hr.
  apply span_in_range_inside in Hr as [HN Hins].
  destruct (has_shape3_inv _ _ _ _ Hs) as [HB Hrows].
  assert (b < length emb)%nat as Hb.
  { rewrite HB, <- Hl. unfold at2 in Hsp.
    destruct (offsets !! b) eqn:E; [|done]. by eapply lookup_lt_Some. }
  destruct (lookup_lt_is_Some_2 _ _ Hb) as [row Hrow].
  destruct (Hrows _ _ Hrow) as [Hlen Hdim].
  exists row. repeat split; try done.
  - by rewrite Hlen.
  - by eapply span_length_le_max.
  - by eapply last_dim_shape.
  - apply (proj1 (Forall_lookup_total _ _) Hdim). lia.
  - lia.
Qed.

Lemma forward_body_runs self token_ids mask offsets wordpiece_mask type_ids seg
    B N :
  inner_shape_ok (_matched_embedder self) B N
    token_ids wordpiece_mask type_ids seg = true ->
  length offsets = B ->
  offsets_in_range N offsets = true ->
  let emb := inner_forward (_matched_embedder self)
               token_ids wordpiece_mask type_ids seg in
  let W := max_span_length offsets in
  let D := last_dim emb in
  forward_body self token_ids mask offsets wordpiece_mask type_ids seg
  = Ok {| embeddings := emb;
          span_embeddings :=
            zip_with (fun row (sps : list (Z * Z)) => masked_slots row W <$> sps)
                     emb offsets;
          span_mask :=
            (fun sps : list (Z * Z) =>
               (fun sp => (fun b : bool => [b]) <$> span_mask_of W sp) <$> sps)
            <$> offsets;
          span_embeddings_sum :=
            zip_with (fun row (sps : list (Z * Z)) =>
                        (fun sp => vsum D (masked_slots row W sp)) <$> sps)
                     emb offsets;
          span_embeddings_len :=
            (fun sps : list (Z * Z) => slot_count W <$> sps) <$> offsets;
          orig_embeddings :=
            zip_with (fun row (sps : list (Z * Z)) => pool_token D row W <$> sps)
                     emb offsets |}.
Proof.
  intros Hs Hl Hin emb W D.
  apply andb_true_iff in Hs as [_ Hs].
  destruct (has_shape3_inv _ _ _ _ Hs) as [HB Hrows].
  apply forward_body_eq.
  - unfold emb. by rewrite HB, Hl.
  - apply (spans_in_range_intro N); [|done].
    intros b row Hb. by destruct (Hrows _ _ Hb).
Qed.

Lemma span_length_width sp :
  sp.1 <= sp.2 -> Z.of_nat (span_length sp) = sp.2 - sp.1 + 1.
Proof. unfold span_length. lia. Qed.

(** ** The divisor *)

(** C9: for every token whose offsets satisfy
    [0 <= start <= end < num_wordpieces], the divisor
    [span_embeddings_len] that [forward] computes is the span width
    [end - start + 1], whatever [wordpiece_mask] holds: the span mask comes
    from the span bounds in [offsets] alone. *)
Theorem span_embeddings_len_is_width
    self token_ids mask offsets wordpiece_mask type_ids seg B N :
  inner_shape_ok (_matched_embedder self) B N
    token_ids wordpiece_mask type_ids seg = true ->
  length offsets = B ->
  offsets_in_range N offsets = true ->
  exists L,
    forward_body self token_ids mask offsets wordpiece_mask type_ids seg = Ok L /\
    span_mask L = unsqueeze_last
      ((fun sps : list (Z * Z) =>
          span_mask_of (max_span_length offsets) <$> sps) <$> offsets) /\
    forall b j sp,
      at2 offsets b j = Some sp -> sp.1 <= sp.2 ->
      at2 (span_embeddings_len L) b j = Some [sp.2 - sp.1 + 1].
Proof.
  intros Hs Hl Hin. eexists. split; [by eapply forward_body_runs|]. simpl.
  split; [by rewrite unsqueeze_last_eq|].
  intros b j sp Hsp Hle.
  rewrite at2_fmap_fmap, Hsp. simpl.
  rewrite slot_count_eq by by eapply span_length_le_max.
  by rewrite span_length_width.
Qed.

Lemma span_embeddings_len_is_width_witness :
  exists L,
    forward_body id_module [[4; 8; 5]] [[1; 1]] [[(0, 1); (2, 2)]] [[1; 0; 0]]
      None None = Ok L /\
    span_mask L = unsqueeze_last
      ((fun sps : list (Z * Z) =>
          span_mask_of (max_span_length [[(0, 1); (2, 2)]]) <$> sps)
       <$> [[(0, 1); (2, 2)]]) /\
    forall b j sp,
      at2 [[(0, 1); (2, 2)]] b j = Some sp -> sp.1 <= sp.2 ->
      at2 (span_embeddings_len L) b j = Some [sp.2 - sp.1 + 1].
Proof.
  apply (span_embeddings_len_is_width id_module [[4; 8; 5]] [[1; 1]]
           [[(0, 1); (2, 2)]] [[1; 0; 0]] None None 1%nat 3%nat);
    reflexivity.
Defined.

(** ** Pooling of one token, general facts *)

Section one_span_shape.
Variables (row : list vec) (W D : nat) (sp : Z * Z).
Hypothesis fits : (span_length sp <= W)%nat.
Hypothesis inside : (Z.to_nat sp.1 + span_length sp <= length row)%nat.
Hypothesis row_dim : Forall (fun v : vec => length v = D) row.
Hypothesis pad_dim : length (row !!! 0%nat) = D.

Lemma masked_slots_padding :
  masked_slots row W sp
  = span_vectors row sp
    ++ replicate (W - span_length sp)
         ((fun x => smul_bool x false) <$> row !!! 0%nat).
Proof.
  unfold masked_slots.
  rewrite gather_span_split, span_mask_of_split by done.
  rewrite fmap_app, !fmap_replicate.
  rewrite zip_with_app by (by rewrite length_span_vectors, length_replicate).
  f_equal.
  - rewrite zip_with_replicate_r_eq by by apply length_span_vectors.
    apply fmap_identity. intros v. unfold flip. simpl.
    rewrite zip_with_replicate_r_eq by done.
    by apply fmap_identity.
  - rewrite zip_with_replicate. f_equal. simpl.
    by rewrite zip_with_replicate_r_eq.
Qed.

Lemma masked_slots_dim :
  Forall (fun v : vec => length v = D) (masked_slots row W sp).
Proof.
  rewrite masked_slots_padding. apply Forall_app. split.
  - by apply span_vectors_dim.
  - apply Forall_replicate. by rewrite length_fmap.
Qed.

Lemma pool_token_div :
  pool_token D row W sp
  = (fun x => sdiv_long x (Z.of_nat (span_length sp)))
    <$> vsum D (masked_slots row W sp).
Proof.
  unfold pool_token. rewrite slot_count_eq by done. simpl.
  by rewrite zip_with_replicate_r_eq.
Qed.

Lemma length_pool_token : length (pool_token D row W sp) = D.
Proof.
  rewrite pool_token_div, length_fmap.
  apply length_vsum, masked_slots_dim.
Qed.
End one_span_shape.

Lemma vadd_zeros_l v D : length v = D -> vadd (replicate D szero) v = v.
Proof.
  intros <-. unfold vadd. rewrite zip_with_replicate_l by done.
  apply fmap_identity, sadd_zero_l.
Qed.

Lemma mean_of_singleton D v : length v = D -> mean_of D [v] = v.
Proof.
  intros Hv. rewrite mean_of_vsum by by constructor.
  unfold vsum. simpl. rewrite vadd_zeros_l by done.
  apply fmap_identity, sdiv_long_1.
Qed.

Lemma span_vectors_singleton (row : list vec) sp v :
  sp.1 = sp.2 -> row !! Z.to_nat sp.1 = Some v -> span_vectors row sp = [v].
Proof.
  intros He Hv. unfold span_vectors, span_length.
  replace (Z.to_nat (sp.2 - sp.1 + 1)) with 1%nat by lia.
  rewrite (drop_S _ _ _ Hv). simpl. by rewrite take_0.
Qed.

(** ** The pooled output *)

(** C1, as amended: for every batch whose offsets satisfy
    [0 <= start <= end < num_wordpieces] for every original token (and whose
    inner-embedder output is finite), [forward] returns, and its output at
    token [j] is the elementwise arithmetic mean of the inner-embedder
    vectors at the wordpiece positions [start .. end] inclusive: their sum
    divided by the span width [end - start + 1], every position of the span
    counted whatever its [wordpiece_mask]. *)
Theorem forward_is_span_mean
    self token_ids mask offsets wordpiece_mask type_ids seg B N :
  let emb := inner_forward (_matched_embedder self)
               token_ids wordpiece_mask type_ids seg in
  let D := Z.to_nat (get_output_dim self) in
  inner_shape_ok (_matched_embedder self) B N
    token_ids wordpiece_mask type_ids seg = true ->
  all_finite emb = true ->
  length offsets = B ->
  offsets_valid N offsets = true ->
  exists out,
    forward self token_ids mask offsets wordpiece_mask type_ids seg = Ok out /\
    forall b j row sp,
      emb !! b = Some row -> at2 offsets b j = Some sp ->
      at2 out b j = Some (mean_of D (span_vectors row sp)) /\
      Z.of_nat (length (span_vectors row sp)) = sp.2 - sp.1 + 1.
Proof.
  intros emb D Hs Hfin Hl Hval.
  pose proof (offsets_valid_in_range _ _ Hval) as Hin.
  unfold forward. rewrite (forward_body_runs _ _ _ _ _ _ _ B N) by done.
  eexists. split; [reflexivity|]. cbn [orig_embeddings].
  intros b j row sp Hrow Hsp. fold emb.
  apply andb_true_iff in Hs as [_ Hs]. fold emb in Hs. fold D in Hs.
  destruct (token_facts _ _ _ _ _ _ _ _ Hs Hl Hin Hsp)
    as (row' & Hrow' & Hdim & Hins & Hfit & HD & Hpad & Hel).
  assert (row' = row) as -> by congruence.
  destruct (offsets_valid_at _ _ _ _ _ Hval Hsp) as [Hle _].
  split.
  - rewrite (at2_zip_with_fmap _ _ _ _ _ row sp) by done.
    f_equal. rewrite HD. apply pool_token_mean; try done.
    pose proof (all_finite_inv _ _ _ Hfin Hrow) as Hf.
    by apply (proj1 (Forall_lookup_total _ _) Hf).
  - rewrite length_span_vectors by done. apply span_length_width. lia.
Qed.

Lemma forward_is_span_mean_witness :
  exists out,
    forward id_module [[4; 8; 5]] [[1; 1]] [[(0, 1); (2, 2)]] [[1; 1; 1]]
      None None = Ok out /\
    forall b j row sp,
      inner_forward id_embedder [[4; 8; 5]] [[1; 1; 1]] None None !! b
        = Some row ->
      at2 [[(0, 1); (2, 2)]] b j = Some sp ->
      at2 out b j = Some (mean_of 1 (span_vectors row sp)) /\
      Z.of_nat (length (span_vectors row sp)) = sp.2 - sp.1 + 1.
Proof.
  apply (forward_is_span_mean id_module [[4; 8; 5]] [[1; 1]]
           [[(0, 1); (2, 2)]] [[1; 1; 1]] None None 1%nat 3%nat);
    reflexivity.
Defined.

Example forward_two_tokens :
  float3_Q <$> forward id_module [[4; 8; 5]] [[1; 1]] [[(0, 1); (2, 2)]]
                 [[1; 1; 1]] None None
  = Ok [[[Some (6 # 1)]; [Some (5 # 1)]]].
Proof. reflexivity. Qed.

Example forward_masked_wordpiece_in_span :
  float3_Q <$> forward id_module [[6; 2]] [[1]] [[(0, 1)]] [[1; 0]] None None
  = Ok [[[Some (3 # 1)]]].
Proof. reflexivity. Qed.

(** C1, counterexample: the span [(0, 1)] holds one real wordpiece (vector
    6) and one padding wordpiece (vector 0).  [forward] returns
    [(6 + 0) / 2 = 3], the sum divided by the span width; the sum divided by
    the count of real wordpieces is [6]. *)
Lemma forward_divides_by_width_not_real_count :
  ~ pools_over_real_wordpieces id_module
      [[6; 2]] [[1]] [[(0, 1)]] [[1; 0]] None None.
Proof.
  intros H. unfold pools_over_real_wordpieces in H.
  assert (forall b j wrow sp,
            [[1; 0]] !! b = Some wrow -> at2 [[(0, 1)]] b j = Some sp ->
            1 <= real_count wrow sp) as Hreal.
  { intros [|b] [|j] wrow sp Hw Hsp; try done.
    injection Hw as <-. injection Hsp as <-. by vm_compute. }
  specialize (H Hreal _ 0%nat 0%nat _ [1; 0] (0, 1) eq_refl eq_refl eq_refl eq_refl).
  apply (f_equal (fun o : option (list scalar) =>
                    match o with
                    | Some [Finite q] => Qnum (this q)
                    | _ => 0
                    end)) in H.
  vm_compute in H. discriminate.
Qed.

(** ** A token of one wordpiece *)

Example forward_with_infinite_entries :
  float3_Q <$> forward inf_module [[0; 0; 5]] [[1; 1]] [[(0, 1); (2, 2)]]
                 [[1; 1; 1]] None None
  = Ok [[[None]; [None]]].
Proof. reflexivity. Qed.

(** C7, counterexample: the inner embedder returns [+Inf], [+Inf], [5].
    The token with span [(2, 2)] covers the one wordpiece holding [5]; it
    is padded to the width of the span [(0, 1)], the padding slot holds an
    infinite vector, which the multiplication by the zero of the mask turns
    into NaN, and the output at that token is NaN, not [5]. *)
Lemma single_wordpiece_token_polluted :
  ~ single_wordpiece_unchanged inf_module
      [[0; 0; 5]] [[1; 1]] [[(0, 1); (2, 2)]] [[1; 1; 1]] None None.
Proof.
  intros H. unfold single_wordpiece_unchanged in H.
  specialize (H _ 0%nat 1%nat _ (2, 2) [Finite (Qc_of_Z 5)]
                eq_refl eq_refl eq_refl eq_refl eq_refl).
  apply (f_equal (fun o : option (list scalar) =>
                    match o with
                    | Some [x] => is_finite x
                    | _ => false
                    end)) in H.
  vm_compute in H. discriminate.
Qed.

(** C7, as amended: when the output of the inner embedder is finite, an
    original token whose span covers exactly one wordpiece ([start = end],
    in bounds) gets the inner-embedder vector at that position,
    unchanged. *)
Theorem single_wordpiece_token_unchanged
    self token_ids mask offsets wordpiece_mask type_ids seg B N :
  let emb := inner_forward (_matched_embedder self)
               token_ids wordpiece_mask type_ids seg in
  inner_shape_ok (_matched_embedder self) B N
    token_ids wordpiece_mask type_ids seg = true ->
  all_finite emb = true ->
  length offsets = B ->
  offsets_in_range N offsets = true ->
  exists out,
    forward self token_ids mask offsets wordpiece_mask type_ids seg = Ok out /\
    forall b j row sp v,
      emb !! b = Some row -> at2 offsets b j = Some sp ->
      sp.1 = sp.2 -> row !! Z.to_nat sp.1 = Some v ->
      at2 out b j = Some v.
Proof.
  intros emb Hs Hfin Hl Hin.
  unfold forward. rewrite (forward_body_runs _ _ _ _ _ _ _ B N) by done.
  eexists. split; [reflexivity|]. cbn [orig_embeddings].
  intros b j row sp v Hrow Hsp Heq Hv. fold emb.
  apply andb_true_iff in Hs as [_ Hs]. fold emb in Hs.
  destruct (token_facts _ _ _ _ _ _ _ _ Hs Hl Hin Hsp)
    as (row' & Hrow' & Hdim & Hins & Hfit & HD & Hpad & Hpos).
  assert (row' = row) as -> by congruence.
  rewrite (at2_zip_with_fmap _ _ _ _ _ row sp) by done.
  f_equal. rewrite HD.
  rewrite pool_token_mean; try done.
  - rewrite (span_vectors_singleton _ _ v) by done.
    apply mean_of_singleton. by apply (Forall_lookup_1 _ _ _ _ Hdim Hv).
  - pose proof (all_finite_inv _ _ _ Hfin Hrow) as Hf.
    by apply (proj1 (Forall_lookup_total _ _) Hf).
Qed.

Lemma single_wordpiece_token_unchanged_witness :
  exists out,
    forward id_module [[4; 8; 5]] [[1; 1]] [[(0, 1); (2, 2)]] [[1; 1; 1]]
      None None = Ok out /\
    forall b j row sp v,
      inner_forward id_embedder [[4; 8; 5]] [[1; 1; 1]] None None !! b
        = Some row ->
      at2 [[(0, 1); (2, 2)]] b j = Some sp ->
      sp.1 = sp.2 -> row !! Z.to_nat sp.1 = Some v ->
      at2 out b j = Some v.
Proof.
  apply (single_wordpiece_token_unchanged id_module [[4; 8; 5]] [[1; 1]]
           [[(0, 1); (2, 2)]] [[1; 1; 1]] None None 1%nat 3%nat);
    reflexivity.
Defined.

(** ** Padding wordpieces inside a span *)

Example divisor_with_masked_wordpiece :
  span_embeddings_len <$>
    forward_body id_module [[6; 2]] [[1]] [[(0, 1)]] [[1; 0]] None None
  = Ok [[[2]]].
Proof. reflexivity. Qed.

(** C2, counterexample: position 1 has [wordpiece_mask = 0] and lies in the
    span [(0, 1)]; the divisor [span_embeddings_len] is 2, the position is
    counted. *)
Lemma masked_wordpiece_is_counted :
  ~ masked_wordpieces_excluded id_module
      [[6; 2]] [[1]] [[(0, 1)]] [[1; 0]] None None.
Proof.
  intros H. unfold masked_wordpieces_excluded in H.
  destruct (H _ 0%nat 0%nat _ [1; 0] (0, 1) eq_refl eq_refl eq_refl eq_refl)
    as [_ Hlen].
  vm_compute in Hlen. discriminate.
Qed.

(** C2, as amended: a wordpiece position adds to the per-token sum and to
    the divisor exactly when it lies in the token's range
    [[start, end]]: for in-bounds offsets the sum is the sum of all vectors
    at [start .. end] and the divisor is their number.  The span mask that
    zeroes the padding slots of a span is derived from the span bounds
    alone: a call with another [wordpiece_mask] has the same span mask and
    the same divisors. *)
Theorem span_mask_from_bounds_only
    self token_ids mask offsets wordpiece_mask type_ids seg B N :
  let emb := inner_forward (_matched_embedder self)
               token_ids wordpiece_mask type_ids seg in
  let D := Z.to_nat (get_output_dim self) in
  inner_shape_ok (_matched_embedder self) B N
    token_ids wordpiece_mask type_ids seg = true ->
  all_finite emb = true ->
  length offsets = B ->
  offsets_valid N offsets = true ->
  exists L,
    forward_body self token_ids mask offsets wordpiece_mask type_ids seg = Ok L /\
    (forall b j row sp,
       emb !! b = Some row -> at2 offsets b j = Some sp ->
       at2 (span_embeddings_sum L) b j = Some (vsum D (span_vectors row sp)) /\
       at2 (span_embeddings_len L) b j
       = Some [Z.of_nat (length (span_vectors row sp))]) /\
    (forall wordpiece_mask',
       inner_shape_ok (_matched_embedder self) B N
         token_ids wordpiece_mask' type_ids seg = true ->
       exists L',
         forward_body self token_ids mask offsets wordpiece_mask' type_ids seg
           = Ok L' /\
         span_mask L' = span_mask L /\
         span_embeddings_len L' = span_embeddings_len L).
Proof.
  intros emb D Hs Hfin Hl Hval.
  pose proof (offsets_valid_in_range _ _ Hval) as Hin.
  eexists. split; [by eapply forward_body_runs|]. simpl. split.
  - intros b j row sp Hrow Hsp. fold emb.
    apply andb_true_iff in Hs as [_ Hs]. fold emb in Hs. fold D in Hs.
    destruct (token_facts _ _ _ _ _ _ _ _ Hs Hl Hin Hsp)
      as (row' & Hrow' & Hdim & Hins & Hfit & HD & Hpad & Hpos).
    assert (row' = row) as -> by congruence.
    split.
    + rewrite (at2_zip_with_fmap _ _ _ _ _ row sp) by done.
      f_equal. rewrite HD. apply masked_slots_sum; try done.
      pose proof (all_finite_inv _ _ _ Hfin Hrow) as Hf.
      by apply (proj1 (Forall_lookup_total _ _) Hf).
    + rewrite at2_fmap_fmap, Hsp. simpl.
      by rewrite slot_count_eq, length_span_vectors.
  - intros wordpiece_mask' Hs'.
    eexists. split; [by eapply forward_body_runs|]. done.
Qed.

Lemma span_mask_from_bounds_only_witness :
  exists L,
    forward_body id_module [[6; 2]] [[1]] [[(0, 1)]] [[1; 0]] None None = Ok L /\
    (forall b j row sp,
       inner_forward id_embedder [[6; 2]] [[1; 0]] None None !! b = Some row ->
       at2 [[(0, 1)]] b j = Some sp ->
       at2 (span_embeddings_sum L) b j = Some (vsum 1 (span_vectors row sp)) /\
       at2 (span_embeddings_len L) b j
       = Some [Z.of_nat (length (span_vectors row sp))]) /\
    (forall wordpiece_mask',
       inner_shape_ok id_embedder 1 2 [[6; 2]] wordpiece_mask' None None = true ->
       exists L',
         forward_body id_module [[6; 2]] [[1]] [[(0, 1)]] wordpiece_mask'
           None None = Ok L' /\
         span_mask L' = span_mask L /\
         span_embeddings_len L' = span_embeddings_len L).
Proof.
  apply (span_mask_from_bounds_only id_module [[6; 2]] [[1]] [[(0, 1)]]
           [[1; 0]] None None 1%nat 2%nat);
    reflexivity.
Defined.

(** ** Division by zero *)

Example forward_all_masked_span :
  float3_Q <$> forward id_module [[4]] [[1]] [[(0, 0)]] [[0]] None None
  = Ok [[[Some (0 # 1)]]].
Proof. reflexivity. Qed.




(** ** Shape of the output *)

Lemma has_shape3_intro B N D (t : float3) :
  length t = B ->
  (forall b row, t !! b = Some row ->
     length row = N /\ Forall (fun v : vec => length v = D) row) ->
  has_shape3 B N D t = true.
Proof.
  intros Hl Hrows. unfold has_shape3.
  rewrite andb_true_iff, Nat.eqb_eq, forallb_Forall_true. split; [done|].
  apply Forall_lookup. intros b row Hb.
  destruct (Hrows _ _ Hb) as [Hn Hd].
  rewrite andb_true_iff, Nat.eqb_eq, forallb_Forall_true. split; [done|].
  eapply List.Forall_impl; [|exact Hd]. intros v Hv. by apply Nat.eqb_eq.
Qed.

(** C3: for inputs that satisfy the documented shape contract, [forward]
    returns a tensor of shape [(batch_size, num_original_tokens,
    embedding_size)], where [embedding_size] is the value of
    [get_output_dim], the dimension the inner embedder reports. *)
Theorem forward_output_shape
    self token_ids mask offsets wordpiece_mask type_ids seg B N T :
  shape_contract B N T token_ids mask offsets wordpiece_mask = true ->
  inner_shape_ok (_matched_embedder self) B N
    token_ids wordpiece_mask type_ids seg = true ->
  offsets_in_range N offsets = true ->
  exists out,
    forward self token_ids mask offsets wordpiece_mask type_ids seg = Ok out /\
    has_shape3 B T (Z.to_nat (get_output_dim self)) out = true /\
    get_output_dim self = inner_get_output_dim (_matched_embedder self).
Proof.
  intros Hc Hs Hin.
  unfold shape_contract in Hc. rewrite !andb_true_iff in Hc.
  destruct Hc as [[[_ _] Ho] _].
  destruct (has_shape2_inv _ _ _ Ho) as [Hl HT].
  unfold forward. rewrite (forward_body_runs _ _ _ _ _ _ _ B N) by done.
  eexists. split; [reflexivity|]. split; [|done]. cbn [orig_embeddings].
  apply andb_true_iff in Hs as [_ Hs].
  destruct (has_shape3_inv _ _ _ _ Hs) as [HB _].
  apply has_shape3_intro.
  - rewrite length_zip_with. lia.
  - intros b out_row Hb.
    apply lookup_zip_with_Some in Hb as (row & sps & -> & Hrow & Hsps).
    split; [rewrite length_fmap; by eapply HT|].
    apply Forall_fmap, Forall_lookup. intros j sp Hj. simpl.
    assert (at2 offsets b j = Some sp) as Hsp.
    { unfold at2. by rewrite Hsps. }
    destruct (token_facts _ _ _ _ _ _ _ _ Hs Hl Hin Hsp)
      as (row' & Hrow' & Hdim & Hins & Hfit & HD & Hpad & Hpos).
    assert (row' = row) as -> by congruence.
    rewrite HD. by apply length_pool_token.
Qed.

Lemma forward_output_shape_witness :
  exists out,
    forward id_module [[4; 8; 5]] [[1; 1]] [[(0, 1); (2, 2)]] [[1; 1; 1]]
      None None = Ok out /\
    has_shape3 1 2 (Z.to_nat (get_output_dim id_module)) out = true /\
    get_output_dim id_module = inner_get_output_dim (_matched_embedder id_module).
Proof.
  apply (forward_output_shape id_module [[4; 8; 5]] [[1; 1]]
           [[(0, 1); (2, 2)]] [[1; 1; 1]] None None 1%nat 3%nat 2%nat);
    reflexivity.
Defined.

(** ** The [mask] argument *)

(** C5: two calls on the same module whose arguments differ in [mask] only
    return the same result; [forward] never reads [mask], neither its value
    nor, on the store, the object it refers to. *)
Theorem forward_ignores_mask
    self token_ids (mask mask' : list (list Z)) offsets wordpiece_mask
    type_ids seg :
  forward self token_ids mask offsets wordpiece_mask type_ids seg
  = forward self token_ids mask' offsets wordpiece_mask type_ids seg
  /\ forall (t m m' o w : nat) (ty sg : option nat) (σ : list tensor),
       forward_st self t m o w ty sg σ = forward_st self t m' o w ty sg σ.
Proof. split; reflexivity. Qed.

(** ** Failures *)

Lemma forward_propagates self token_ids mask offsets wordpiece_mask type_ids seg e :
  batched_span_select
    (contiguous (inner_forward (_matched_embedder self)
                   token_ids wordpiece_mask type_ids seg)) offsets = Raise e ->
  forward self token_ids mask offsets wordpiece_mask type_ids seg = Raise e.
Proof. intros H. unfold forward, forward_body. by rewrite H. Qed.

Example forward_with_misshaped_mask :
  float3_Q <$> forward id_module [[4]] [[1; 1; 1]] [[(0, 0)]] [[1]] None None
  = Ok [[[Some (4 # 1)]]].
Proof. reflexivity. Qed.

(** C8, counterexample: [mask] has shape [(1, 3)] while [offsets] has
    shape [(1, 1, 2)], so no [(B, N, T)] fits the documented shapes; the
    call returns all the same, because [forward] never reads [mask]. *)
Lemma misshaped_mask_is_accepted :
  ~ contract_violation_fails id_module
      [[4]] [[1; 1; 1]] [[(0, 0)]] [[1]] None None.
Proof.
  intros H. destruct H as [e He].
  - right. intros B N T. apply not_true_is_false. intros Hc.
    unfold shape_contract in Hc. rewrite !andb_true_iff in Hc.
    destruct Hc as [[[_ Hm] Ho] _].
    apply has_shape2_inv in Hm as [_ Hm].
    apply has_shape2_inv in Ho as [_ Ho].
    specialize (Hm 0%nat _ eq_refl). specialize (Ho 0%nat _ eq_refl).
    simpl in *. lia.
  - vm_compute in He. discriminate.
Qed.

(** C8, as amended: a call in which [offsets] refers to a wordpiece index
    outside [[0, num_wordpieces)], or in which the batch size of [offsets]
    differs from that of the embeddings, fails with the error of the span
    selection; [forward] hands that error on unchanged, it neither recovers
    nor retries.  (The shape of [mask] is never checked.) *)
Theorem forward_raises_on_bad_offsets
    self token_ids mask offsets wordpiece_mask type_ids seg B N :
  let emb := inner_forward (_matched_embedder self)
               token_ids wordpiece_mask type_ids seg in
  inner_shape_ok (_matched_embedder self) B N
    token_ids wordpiece_mask type_ids seg = true ->
  (length offsets <> B \/
   exists b j sp, at2 offsets b j = Some sp /\ span_in_range N sp = false) ->
  exists e,
    batched_span_select (contiguous emb) offsets = Raise e /\
    forward self token_ids mask offsets wordpiece_mask type_ids seg = Raise e.
Proof.
  intros emb Hs Hbad.
  apply andb_true_iff in Hs as [_ Hs]. fold emb in Hs.
  destruct (has_shape3_inv _ _ _ _ Hs) as [HB Hrows].
  assert (exists e, batched_span_select (contiguous emb) offsets = Raise e)
    as [e He].
  { unfold batched_span_select, contiguous.
    destruct (length emb =? length offsets)%nat eqn:Hlen; simpl; [|by eexists].
    apply Nat.eqb_eq in Hlen.
    destruct Hbad as [Hne | (b & j & sp & Hsp & Hout)]; [congruence|].
    destruct (spans_in_range emb offsets) eqn:Hin; simpl; [|by eexists].
    exfalso.
    assert (b < length emb)%nat as Hb.
    { rewrite Hlen. unfold at2 in Hsp.
      destruct (offsets !! b) eqn:E; [|done]. by eapply lookup_lt_Some. }
    destruct (lookup_lt_is_Some_2 _ _ Hb) as [row Hrow].
    destruct (Hrows _ _ Hrow) as [Hn _].
    pose proof (spans_in_range_elim N _ _ _ _ _ _ Hin Hrow Hn Hsp).
    congruence. }
  exists e. split; [done|]. by apply forward_propagates.
Qed.

Lemma forward_raises_on_bad_offsets_witness :
  exists e,
    batched_span_select
      (contiguous (inner_forward id_embedder [[4; 8; 5]] [[1; 1; 1]] None None))
      [[(0, 1); (2, 3)]] = Raise e /\
    forward id_module [[4; 8; 5]] [[1; 1]] [[(0, 1); (2, 3)]] [[1; 1; 1]]
      None None = Raise e.
Proof.
  apply (forward_raises_on_bad_offsets id_module [[4; 8; 5]] [[1; 1]]
           [[(0, 1); (2, 3)]] [[1; 1; 1]] None None 1%nat 3%nat).
  - reflexivity.
  - right. exists 0%nat, 1%nat, (2, 3). split; reflexivity.
Defined.

(** ** The store *)

Section store_rules.
Context {A B : Type}.
Variable n : nat.

Lemma preserves_ret (a : A) (Q : A -> Prop) : Q a -> preserves n (mret a) Q.
Proof.
  intros HQ σ Hn. repeat split; [done|].
  intros a' Ha. by injection Ha as <-.
Qed.

Lemma preserves_lift (r : result A) : preserves n (lift r) (fun _ => True).
Proof. intros σ Hn. by repeat split. Qed.

Lemma preserves_bind (m : M A) (f : A -> M B) (P : A -> Prop) (Q : B -> Prop) :
  preserves n m P ->
  (forall a, P a -> preserves n (f a) Q) ->
  preserves n (m ≫= f) Q.
Proof.
  intros Hm Hf σ Hn. unfold mbind, M_bind.
  destruct (Hm σ Hn) as (Ht & Hl & HP).
  destruct (m σ) as [σ1 [a|e]]; simpl in *.
  - destruct (Hf a (HP a eq_refl) σ1 Hl) as (Ht' & Hl' & HQ).
    repeat split; [congruence|done|done].
  - by repeat split.
Qed.

Lemma preserves_weaken (m : M A) (P Q : A -> Prop) :
  preserves n m P -> (forall a, P a -> Q a) -> preserves n m Q.
Proof.
  intros Hm HPQ σ Hn. destruct (Hm σ Hn) as (Ht & Hl & HP).
  repeat split; [done..|]. intros a Ha. by apply HPQ, HP.
Qed.
End store_rules.

Lemma preserves_alloc n t : preserves n (alloc t) (fun r => (n <= r)%nat).
Proof.
  intros σ Hn. unfold alloc. simpl. repeat split.
  - by apply take_app_le.
  - rewrite length_app. lia.
  - intros a Ha. injection Ha as <-. done.
Qed.

Lemma preserves_load n r : preserves n (load r) (fun _ => True).
Proof. intros σ Hn. by repeat split. Qed.

(** An update in place keeps the first [n] objects when its target is not
    one of them. *)
Lemma preserves_update n r t :
  (n <= r)%nat -> preserves n (update r t) (fun _ => True).
Proof.
  intros Hr σ Hn. unfold update.
  destruct (r <? length σ)%nat; simpl; repeat split; try done.
  - by apply take_insert_ge.
  - by rewrite length_insert.
Qed.

Ltac preserves_load_typed :=
  eapply preserves_bind; [apply preserves_load|];
  intros [] _; first [by apply preserves_ret | apply preserves_lift].

Lemma preserves_load_long2 n r : preserves n (load_long2 r) (fun _ => True).
Proof. unfold load_long2. preserves_load_typed. Qed.
Lemma preserves_load_spans n r : preserves n (load_spans r) (fun _ => True).
Proof. unfold load_spans. preserves_load_typed. Qed.
Lemma preserves_load_float3 n r : preserves n (load_float3 r) (fun _ => True).
Proof. unfold load_float3. preserves_load_typed. Qed.
Lemma preserves_load_float4 n r : preserves n (load_float4 r) (fun _ => True).
Proof. unfold load_float4. preserves_load_typed. Qed.
Lemma preserves_load_bool3 n r : preserves n (load_bool3 r) (fun _ => True).
Proof. unfold load_bool3. preserves_load_typed. Qed.
Lemma preserves_load_bool4 n r : preserves n (load_bool4 r) (fun _ => True).
Proof. unfold load_bool4. preserves_load_typed. Qed.
Lemma preserves_load_long3 n r : preserves n (load_long3 r) (fun _ => True).
Proof. unfold load_long3. preserves_load_typed. Qed.

Lemma preserves_load_optional n r :
  preserves n (load_optional r) (fun _ => True).
Proof.
  destruct r as [r|]; simpl; [|by apply preserves_ret].
  eapply preserves_bind; [apply preserves_load_long2|].
  intros x _. by apply preserves_ret.
Qed.

Create HintDb store_rules.
#[local] Hint Resolve preserves_alloc preserves_load_long2 preserves_load_spans
  preserves_load_float3 preserves_load_float4 preserves_load_bool3
  preserves_load_bool4 preserves_load_long3 preserves_load_optional
  : store_rules.

(** One step of a computation: a load, then the rest. *)
Ltac preserves_step :=
  eapply preserves_bind; [solve [eauto with store_rules]|]; intros ? ?.

Lemma preserves_matched_embedder n e token_ids wordpiece_mask type_ids seg :
  preserves n (matched_embedder_st e token_ids wordpiece_mask type_ids seg)
    (fun r => (n <= r)%nat).
Proof.
  unfold matched_embedder_st. do 4 preserves_step. apply preserves_alloc.
Qed.

(** The span selection returns two new tensors. *)
Lemma preserves_batched_span_select n target spans :
  preserves n (batched_span_select_st target spans)
    (fun p => (n <= p.1)%nat /\ (n <= p.2)%nat).
Proof.
  unfold batched_span_select_st. do 2 preserves_step.
  eapply preserves_bind; [apply preserves_lift|]. intros [e m] _.
  eapply preserves_bind; [apply preserves_alloc|]. intros re Hre.
  eapply preserves_bind; [apply preserves_alloc|]. intros rm Hrm.
  by apply preserves_ret.
Qed.

Lemma preserves_imul n x m :
  (n <= x)%nat -> preserves n (imul_st x m) (fun _ => True).
Proof.
  intros Hx. unfold imul_st. do 2 preserves_step. by apply preserves_update.
Qed.

Lemma preserves_forward n self token_ids mask offsets wordpiece_mask type_ids seg :
  preserves n
    (forward_st self token_ids mask offsets wordpiece_mask type_ids seg)
    (fun r => (n <= r)%nat).
Proof.
  unfold forward_st.
  eapply preserves_bind; [apply preserves_matched_embedder|].
  intros embeddings Hemb.
  eapply preserves_bind; [by apply preserves_ret|]. intros c Hc.
  eapply preserves_bind; [apply preserves_batched_span_select|].
  intros [span_embeddings span_mask] [Hse Hsm]. simpl in Hse.
  eapply preserves_bind.
  { unfold unsqueeze_last_st. preserves_step. apply preserves_alloc. }
  intros span_mask' _.
  eapply preserves_bind; [by apply preserves_imul|]. intros _ _.
  preserves_step.
  eapply preserves_bind.
  { unfold sum_dim2_st. preserves_step. apply preserves_alloc. }
  intros span_embeddings_sum _.
  eapply preserves_bind.
  { unfold count_dim2_st. preserves_step. apply preserves_alloc. }
  intros span_embeddings_len _.
  eapply preserves_bind.
  { unfold div_count_st. do 2 preserves_step. apply preserves_alloc. }
  intros orig Horig. by apply preserves_ret.
Qed.

(** ** A successful call on the store *)

Lemma run_bind {A B} (m : M A) (f : A -> M B) (σ σ1 : list tensor) (a : A) :
  m σ = (σ1, Ok a) -> (m ≫= f) σ = f a σ1.
Proof. intros H. unfold mbind, M_bind. by rewrite H. Qed.

Lemma run_load_long2 (σ : list tensor) r x :
  σ !! r = Some (TLong2 x) -> load_long2 r σ = (σ, Ok x).
Proof. intros H. unfold load_long2, load, mbind, M_bind. by rewrite H. Qed.
Lemma run_load_spans (σ : list tensor) r x :
  σ !! r = Some (TSpans x) -> load_spans r σ = (σ, Ok x).
Proof. intros H. unfold load_spans, load, mbind, M_bind. by rewrite H. Qed.
Lemma run_load_float3 (σ : list tensor) r x :
  σ !! r = Some (TFloat3 x) -> load_float3 r σ = (σ, Ok x).
Proof. intros H. unfold load_float3, load, mbind, M_bind. by rewrite H. Qed.
Lemma run_load_float4 (σ : list tensor) r x :
  σ !! r = Some (TFloat4 x) -> load_float4 r σ = (σ, Ok x).
Proof. intros H. unfold load_float4, load, mbind, M_bind. by rewrite H. Qed.
Lemma run_load_bool3 (σ : list tensor) r x :
  σ !! r = Some (TBool3 x) -> load_bool3 r σ = (σ, Ok x).
Proof. intros H. unfold load_bool3, load, mbind, M_bind. by rewrite H. Qed.
Lemma run_load_bool4 (σ : list tensor) r x :
  σ !! r = Some (TBool4 x) -> load_bool4 r σ = (σ, Ok x).
Proof. intros H. unfold load_bool4, load, mbind, M_bind. by rewrite H. Qed.
Lemma run_load_long3 (σ : list tensor) r x :
  σ !! r = Some (TLong3 x) -> load_long3 r σ = (σ, Ok x).
Proof. intros H. unfold load_long3, load, mbind, M_bind. by rewrite H. Qed.

Lemma run_load_optional (σ : list tensor) r v :
  optional_holds σ r v -> load_optional r σ = (σ, Ok v).
Proof.
  destruct r as [r|], v as [v|]; simpl; try done.
  intros H. by rewrite (run_bind _ _ _ _ _ (run_load_long2 _ _ _ H)).
Qed.

Lemma lookup_new {A} (l k : list A) (i j : nat) (x : A) :
  i = (length l + j)%nat -> k !! j = Some x -> (l ++ k) !! i = Some x.
Proof. intros -> <-. rewrite lookup_app_r by lia. f_equal. lia. Qed.

(** The [j]-th tensor created since the start of the call. *)
Ltac new_tensor j :=
  eapply (lookup_new _ _ _ j);
  [rewrite ?length_app; simpl; lia | reflexivity].

Lemma optional_holds_app (σ k : list tensor) r v :
  optional_holds σ r v -> optional_holds (σ ++ k) r v.
Proof.
  destruct r as [r|], v as [v|]; simpl; try done. apply lookup_app_l_Some.
Qed.

(** On a store that holds the arguments, a call that returns creates seven
    tensors, in this order: [embeddings], [span_embeddings], the span mask,
    its [unsqueeze], the two sums and the result.  The second of them, made
    by the span selection, is the one multiplied in place. *)
Lemma forward_st_run
    self (token_ids mask offsets wordpiece_mask : nat)
    (type_ids seg : option nat) (σ : list tensor) t m o w tyv sgv L :
  σ !! token_ids = Some (TLong2 t) ->
  σ !! offsets = Some (TSpans o) ->
  σ !! wordpiece_mask = Some (TLong2 w) ->
  optional_holds σ type_ids tyv ->
  optional_holds σ seg sgv ->
  forward_body self t m o w tyv sgv = Ok L ->
  forward_st self token_ids mask offsets wordpiece_mask type_ids seg σ
  = (σ ++ [TFloat3 (embeddings L);
           TFloat4 (span_embeddings L);
           TBool3 ((fun sps : list (Z * Z) =>
                      span_mask_of (max_span_length o) <$> sps) <$> o);
           TBool4 (span_mask L);
           TFloat3 (span_embeddings_sum L);
           TLong3 (span_embeddings_len L);
           TFloat3 (orig_embeddings L)],
     Ok (length σ + 6)%nat).
Proof.
  intros Ht Ho Hw Hty Hsg HL.
  unfold forward_body in HL.
  set (emb := inner_forward (_matched_embedder self) t w tyv sgv) in *.
  destruct (batched_span_select (contiguous emb) o) as [[se sm]|e] eqn:Hsel;
    [|done].
  assert (sm = (fun sps : list (Z * Z) =>
                  span_mask_of (max_span_length o) <$> sps) <$> o) as Hsm.
  { unfold batched_span_select in Hsel.
    destruct (negb _); [done|]. destruct (negb _); [done|]. congruence. }
  injection HL as <-. cbn [embeddings span_embeddings span_mask
    span_embeddings_sum span_embeddings_len orig_embeddings].
  rewrite <- Hsm. clear Hsm.
  unfold forward_st.
  (* embeddings *)
  erewrite run_bind; cycle 1.
  { unfold matched_embedder_st.
    erewrite run_bind by (by apply run_load_long2).
    erewrite run_bind by (by apply run_load_long2).
    erewrite run_bind by (by apply run_load_optional).
    erewrite run_bind by (by apply run_load_optional).
    reflexivity. }
  fold emb. unfold contiguous_st.
  erewrite run_bind by reflexivity.
  (* span selection *)
  erewrite run_bind; cycle 1.
  { unfold batched_span_select_st.
    erewrite run_bind; cycle 1.
    { apply run_load_float3. new_tensor 0%nat. }
    erewrite run_bind by (by apply run_load_spans, lookup_app_l_Some).
    erewrite run_bind by (unfold lift; by rewrite <- Hsel).
    reflexivity. }
  cbv beta iota. rewrite !length_app, <- !(assoc_L (++)). simpl.
  (* unsqueeze *)
  erewrite run_bind; cycle 1.
  { unfold unsqueeze_last_st.
    erewrite run_bind; cycle 1.
    { apply run_load_bool3. new_tensor 2%nat. }
    reflexivity. }
  rewrite <- !(assoc_L (++)). simpl.
  (* multiplication in place *)
  erewrite run_bind; cycle 1.
  { unfold imul_st.
    erewrite run_bind; cycle 1.
    { apply run_load_float4. new_tensor 1%nat. }
    erewrite run_bind; cycle 1.
    { apply run_load_bool4. new_tensor 3%nat. }
    unfold update. rewrite length_app. simpl.
    replace (length σ + 1 <? length σ + 4)%nat with true
      by (symmetry; apply Nat.ltb_lt; lia).
    rewrite insert_app_r. reflexivity. }
  simpl.
  (* the sums and the division *)
  erewrite run_bind; cycle 1.
  { apply run_load_float3. new_tensor 0%nat. }
  erewrite run_bind; cycle 1.
  { unfold sum_dim2_st.
    erewrite run_bind; cycle 1.
    { apply run_load_float4. new_tensor 1%nat. }
    reflexivity. }
  rewrite !length_app, <- !(assoc_L (++)). simpl.
  erewrite run_bind; cycle 1.
  { unfold count_dim2_st.
    erewrite run_bind; cycle 1.
    { apply run_load_bool4. new_tensor 3%nat. }
    reflexivity. }
  rewrite !length_app, <- !(assoc_L (++)). simpl.
  erewrite run_bind; cycle 1.
  { unfold div_count_st.
    erewrite run_bind; cycle 1.
    { apply run_load_float3. new_tensor 4%nat. }
    erewrite run_bind; cycle 1.
    { apply run_load_long3. new_tensor 5%nat. }
    reflexivity. }
  rewrite !length_app, <- !(assoc_L (++)). simpl.
  reflexivity.
Qed.

(** C10: [forward] leaves every tensor object that exists before the call
    as it is, in particular its arguments [token_ids], [mask], [offsets],
    [wordpiece_mask], [type_ids] and [segment_concat_mask]: the store after
    the call is the store before it followed by new tensors, whether the
    call returns or raises.  When the call returns, the new tensors are the
    seven listed, and the one updated in place by
    [span_embeddings *= span_mask] is the second of them, created by the
    span selection. *)
Theorem forward_leaves_inputs_unchanged
    self (token_ids mask offsets wordpiece_mask : nat)
    (type_ids seg : option nat) (σ : list tensor) :
  let σ' :=
    (forward_st self token_ids mask offsets wordpiece_mask type_ids seg σ).1 in
  σ `prefix_of` σ' /\
  (forall r t, σ !! r = Some t -> σ' !! r = Some t) /\
  (forall t m o w tyv sgv L,
     σ !! token_ids = Some (TLong2 t) ->
     σ !! offsets = Some (TSpans o) ->
     σ !! wordpiece_mask = Some (TLong2 w) ->
     optional_holds σ type_ids tyv ->
     optional_holds σ seg sgv ->
     forward_body self t m o w tyv sgv = Ok L ->
     σ' = σ ++ [TFloat3 (embeddings L);
                TFloat4 (span_embeddings L);
                TBool3 ((fun sps : list (Z * Z) =>
                           span_mask_of (max_span_length o) <$> sps) <$> o);
                TBool4 (span_mask L);
                TFloat3 (span_embeddings_sum L);
                TLong3 (span_embeddings_len L);
                TFloat3 (orig_embeddings L)]).
Proof.
  intros σ'.
  assert (σ `prefix_of` σ') as Hpre.
  { destruct (preserves_forward (length σ) self token_ids mask offsets
                wordpiece_mask type_ids seg σ (le_n _)) as (Ht & _ & _).
    rewrite (take_ge σ) in Ht by lia. fold σ' in Ht.
    rewrite <- Ht. apply prefix_take. }
  split; [done|]. split.
  - intros r t Hr. by eapply prefix_lookup_Some.
  - intros t m o w tyv sgv L Ht Ho Hw Hty Hsg HL. unfold σ'.
    by rewrite (forward_st_run _ _ _ _ _ _ _ _ _ m _ _ _ _ _ Ht Ho Hw Hty Hsg HL).
Qed.

Example forward_st_two_tokens :
  let σ := [TLong2 [[4; 8; 5]]; TLong2 [[1; 1]];
            TSpans [[(0, 1); (2, 2)]]; TLong2 [[1; 1; 1]]] in
  let run := forward_st id_module 0 1 2 3 None None σ in
  run.2 = Ok 10%nat /\ take 4 run.1 = σ /\ length run.1 = 11%nat.
Proof. repeat split. Qed.

(** * Further properties of [forward] *)

(** ** Tokens of a call with valid offsets *)

(** What a call with finite embeddings and valid offsets gives for the
    token at [(b, j)]: its span is not empty, its vectors are finite and of
    the embedding dimension, and [forward] pools them to their mean. *)
Lemma valid_token (emb : float3) (offsets : spans3) B N D b j row sp :
  has_shape3 B N D emb = true ->
  all_finite emb = true ->
  length offsets = B ->
  offsets_valid N offsets = true ->
  emb !! b = Some row -> at2 offsets b j = Some sp ->
  span_vectors row sp <> [] /\
  Forall (fun v : vec => length v = D) (span_vectors row sp) /\
  Forall (fun v : vec => forallb is_finite v = true) (span_vectors row sp) /\
  pool_token (last_dim emb) row (max_span_length offsets) sp
  = mean_of D (span_vectors row sp).
Proof.
  intros Hs Hfin Hl Hval Hrow Hsp.
  pose proof (offsets_valid_in_range _ _ Hval) as Hin.
  destruct (token_facts _ _ _ _ _ _ _ _ Hs Hl Hin Hsp)
    as (row' & Hrow' & Hdim & Hins & Hfit & HD & Hpad & Hpos).
  assert (row' = row) as -> by congruence.
  destruct (offsets_valid_at _ _ _ _ _ Hval Hsp) as [Hle _].
  pose proof (all_finite_inv _ _ _ Hfin Hrow) as Hf.
  repeat split.
  - intros E. apply (f_equal length) in E.
    rewrite length_span_vectors in E by done.
    unfold span_length in E. simpl in E. lia.
  - by apply span_vectors_dim.
  - unfold span_vectors. by apply Forall_take, Forall_drop.
  - rewrite HD. apply pool_token_mean; try done.
    by apply (proj1 (Forall_lookup_total _ _) Hf).
Qed.

Lemma forward_returns self token_ids mask offsets wordpiece_mask type_ids seg B N :
  inner_shape_ok (_matched_embedder self) B N
    token_ids wordpiece_mask type_ids seg = true ->
  length offsets = B ->
  offsets_in_range N offsets = true ->
  forward self token_ids mask offsets wordpiece_mask type_ids seg
  = Ok (zip_with (fun row (sps : list (Z * Z)) =>
                    pool_token
                      (last_dim (inner_forward (_matched_embedder self)
                                   token_ids wordpiece_mask type_ids seg))
                      row (max_span_length offsets) <$> sps)
                 (inner_forward (_matched_embedder self)
                    token_ids wordpiece_mask type_ids seg) offsets).
Proof.
  intros Hs Hl Hin. unfold forward.
  by rewrite (forward_body_runs _ _ _ _ _ _ _ B N).
Qed.

(** ** A token and the rest of the batch *)

(** X4: for calls with finite inner-embedder output and offsets that
    satisfy [0 <= start <= end < num_wordpieces], the output of a token
    depends on the vectors of its batch row and on its own span only: the
    other tokens, the other batch rows and the padding to the longest span
    of the batch do not change it.  Two such calls of one module that
    agree on a row of embeddings and on a span give the same output for
    that token. *)
Theorem token_output_independent_of_batch
    self token_ids1 mask1 offsets1 wordpiece_mask1 type_ids1 seg1 B1 N1
    token_ids2 mask2 offsets2 wordpiece_mask2 type_ids2 seg2 B2 N2 :
  let emb1 := inner_forward (_matched_embedder self)
                token_ids1 wordpiece_mask1 type_ids1 seg1 in
  let emb2 := inner_forward (_matched_embedder self)
                token_ids2 wordpiece_mask2 type_ids2 seg2 in
  inner_shape_ok (_matched_embedder self) B1 N1
    token_ids1 wordpiece_mask1 type_ids1 seg1 = true ->
  all_finite emb1 = true ->
  length offsets1 = B1 ->
  offsets_valid N1 offsets1 = true ->
  inner_shape_ok (_matched_embedder self) B2 N2
    token_ids2 wordpiece_mask2 type_ids2 seg2 = true ->
  all_finite emb2 = true ->
  length offsets2 = B2 ->
  offsets_valid N2 offsets2 = true ->
  exists out1 out2,
    forward self token_ids1 mask1 offsets1 wordpiece_mask1 type_ids1 seg1
      = Ok out1 /\
    forward self token_ids2 mask2 offsets2 wordpiece_mask2 type_ids2 seg2
      = Ok out2 /\
    forall b1 j1 b2 j2 row sp,
      emb1 !! b1 = Some row -> emb2 !! b2 = Some row ->
      at2 offsets1 b1 j1 = Some sp -> at2 offsets2 b2 j2 = Some sp ->
      at2 out1 b1 j1 = at2 out2 b2 j2.
Proof.
  intros emb1 emb2 Hs1 Hfin1 Hl1 Hval1 Hs2 Hfin2 Hl2 Hval2.
  pose proof (offsets_valid_in_range _ _ Hval1) as Hin1.
  pose proof (offsets_valid_in_range _ _ Hval2) as Hin2.
  rewrite (forward_returns _ _ _ _ _ _ _ B1 N1) by done.
  rewrite (forward_returns _ _ _ _ _ _ _ B2 N2) by done.
  eexists _, _. split; [reflexivity|]. split; [reflexivity|].
  intros b1 j1 b2 j2 row sp Hrow1 Hrow2 Hsp1 Hsp2. fold emb1 emb2.
  apply andb_true_iff in Hs1 as [_ Hs1]. fold emb1 in Hs1.
  apply andb_true_iff in Hs2 as [_ Hs2]. fold emb2 in Hs2.
  destruct (valid_token _ _ _ _ _ _ _ _ _ Hs1 Hfin1 Hl1 Hval1 Hrow1 Hsp1)
    as (_ & _ & _ & Hpool1).
  destruct (valid_token _ _ _ _ _ _ _ _ _ Hs2 Hfin2 Hl2 Hval2 Hrow2 Hsp2)
    as (_ & _ & _ & Hpool2).
  rewrite (at2_zip_with_fmap _ _ _ _ _ row sp) by done.
  rewrite (at2_zip_with_fmap _ _ _ _ _ row sp) by done.
  by rewrite Hpool1, Hpool2.
Qed.

Lemma token_output_independent_of_batch_witness :
  exists out1 out2,
    forward id_module [[4; 8; 5]] [[1; 1]] [[(0, 1); (2, 2)]] [[1; 1; 1]]
      None None = Ok out1 /\
    forward id_module [[4; 8; 5]; [1; 2; 3]] [[1]; [1]] [[(2, 2)]; [(0, 2)]]
      [[1; 1; 1]; [1; 1; 1]] None None = Ok out2 /\
    forall b1 j1 b2 j2 row sp,
      inner_forward id_embedder [[4; 8; 5]] [[1; 1; 1]] None None !! b1
        = Some row ->
      inner_forward id_embedder [[4; 8; 5]; [1; 2; 3]]
        [[1; 1; 1]; [1; 1; 1]] None None !! b2 = Some row ->
      at2 [[(0, 1); (2, 2)]] b1 j1 = Some sp ->
      at2 [[(2, 2)]; [(0, 2)]] b2 j2 = Some sp ->
      at2 out1 b1 j1 = at2 out2 b2 j2.
Proof.
  apply (token_output_independent_of_batch id_module
           [[4; 8; 5]] [[1; 1]] [[(0, 1); (2, 2)]] [[1; 1; 1]] None None
           1%nat 3%nat
           [[4; 8; 5]; [1; 2; 3]] [[1]; [1]] [[(2, 2)]; [(0, 2)]]
           [[1; 1; 1]; [1; 1; 1]] None None 2%nat 3%nat);
    reflexivity.
Defined.

(** ** The intermediate tensors *)

(** X5: [span_embeddings *= span_mask] works slot by slot on what the
    span selection returned, whatever that is: a slot that the mask marks
    real keeps its vector, and a finite slot that the mask marks padding
    becomes the zero vector of the same dimension. *)
Theorem multiplication_zeroes_padding_slots
    self token_ids mask offsets wordpiece_mask type_ids seg
    (selected : list (list (list (list scalar))))
    (selected_mask : list (list (list bool))) :
  batched_span_select
    (contiguous (inner_forward (_matched_embedder self)
                   token_ids wordpiece_mask type_ids seg)) offsets
  = Ok (selected, selected_mask) ->
  exists L,
    forward_body self token_ids mask offsets wordpiece_mask type_ids seg = Ok L /\
    forall b j k v real,
      at3 selected b j k = Some v -> at3 selected_mask b j k = Some real ->
      (real = true -> at3 (span_embeddings L) b j k = Some v) /\
      (real = false -> forallb is_finite v = true ->
       at3 (span_embeddings L) b j k = Some (replicate (length v) szero)).
Proof.
  intros Hsel. unfold forward_body. rewrite Hsel.
  eexists. split; [reflexivity|]. cbn [span_embeddings].
  intros b j k v real Hv Hm.
  assert (at3 (mul_mask selected (unsqueeze_last selected_mask)) b j k
          = Some (zip_with smul_bool v (replicate (length v) real))) as Hk.
  { unfold at3, at2, mul_mask, unsqueeze_last in *.
    rewrite lookup_zip_with, list_lookup_fmap.
    destruct (selected !! b) as [xb|]; [|done].
    destruct (selected_mask !! b) as [mb|]; [|done]. simpl in *.
    rewrite lookup_zip_with, list_lookup_fmap.
    destruct (xb !! j) as [xj|]; [|done].
    destruct (mb !! j) as [mj|]; [|done]. simpl in *.
    rewrite lookup_zip_with, list_lookup_fmap, Hv, Hm. done. }
  rewrite Hk. rewrite zip_with_replicate_r_eq by done. split.
  - intros ->. f_equal. by apply fmap_identity.
  - intros -> Hfin. f_equal.
    rewrite (fmap_constant _ _ szero); [done|].
    apply forallb_Forall_true in Hfin.
    eapply List.Forall_impl; [|exact Hfin].
    intros x Hx. by apply smul_bool_false.
Qed.

Lemma multiplication_zeroes_padding_slots_witness :
  exists selected selected_mask L,
    batched_span_select
      (contiguous (inner_forward (_matched_embedder id_module)
                     [[4; 8; 5]] [[1; 1; 1]] None None))
      [[(0, 1); (2, 2)]]
    = Ok (selected, selected_mask) /\
    forward_body id_module [[4; 8; 5]] [[1; 1]] [[(0, 1); (2, 2)]] [[1; 1; 1]]
      None None = Ok L /\
    forall b j k v real,
      at3 selected b j k = Some v -> at3 selected_mask b j k = Some real ->
      (real = true -> at3 (span_embeddings L) b j k = Some v) /\
      (real = false -> forallb is_finite v = true ->
       at3 (span_embeddings L) b j k = Some (replicate (length v) szero)).
Proof.
  eexists _, _.
  destruct (multiplication_zeroes_padding_slots id_module
              [[4; 8; 5]] [[1; 1]] [[(0, 1); (2, 2)]] [[1; 1; 1]] None None
              _ _ eq_refl) as [L HL].
  exists L. split; [reflexivity|exact HL].
Defined.

Lemma has_shape2_intro {A} B T (t : list (list A)) :
  length t = B ->
  (forall b row, t !! b = Some row -> length row = T) ->
  has_shape2 B T t = true.
Proof.
  intros Hl Hrows. unfold has_shape2.
  rewrite andb_true_iff, Nat.eqb_eq, forallb_Forall_true. split; [done|].
  apply Forall_lookup. intros b row Hb. by apply Nat.eqb_eq, (Hrows b).
Qed.

Lemma has_shape3g_intro {A} B T W (t : list (list (list A))) :
  length t = B ->
  (forall b row, t !! b = Some row -> has_shape2 T W row = true) ->
  has_shape3g B T W t = true.
Proof.
  intros Hl Hrows. unfold has_shape3g.
  rewrite andb_true_iff, Nat.eqb_eq, forallb_Forall_true. split; [done|].
  apply Forall_lookup. intros b row Hb. by apply (Hrows b).
Qed.

Lemma has_shape4g_intro {A} B T W D (t : list (list (list (list A)))) :
  length t = B ->
  (forall b row, t !! b = Some row -> has_shape3g T W D row = true) ->
  has_shape4g B T W D t = true.
Proof.
  intros Hl Hrows. unfold has_shape4g.
  rewrite andb_true_iff, Nat.eqb_eq, forallb_Forall_true. split; [done|].
  apply Forall_lookup. intros b row Hb. by apply (Hrows b).
Qed.

Lemma length_span_mask_of W sp : length (span_mask_of W sp) = W.
Proof. unfold span_mask_of. by rewrite length_fmap, length_seq. Qed.

Lemma length_gather_span row W sp : length (gather_span row W sp) = W.
Proof. unfold gather_span. by rewrite length_fmap, length_seq. Qed.

Lemma length_masked_slots row W sp : length (masked_slots row W sp) = W.
Proof.
  unfold masked_slots.
  rewrite length_zip_with, length_gather_span, length_fmap, length_span_mask_of.
  lia.
Qed.

(** X6: the shapes that the comments of [forward] give for its
    intermediate tensors.  For [offsets] of shape [(B, T)] in range,
    [span_embeddings] has shape [(B, T, W, D)] and [span_mask], after
    [unsqueeze(-1)], shape [(B, T, W, 1)], [W] being the longest span of the
    batch; [span_embeddings_sum] has shape [(B, T, D)] and
    [span_embeddings_len] shape [(B, T, 1)]. *)
Theorem intermediate_shapes
    self token_ids mask offsets wordpiece_mask type_ids seg B N T :
  let D := Z.to_nat (get_output_dim self) in
  let W := max_span_length offsets in
  inner_shape_ok (_matched_embedder self) B N
    token_ids wordpiece_mask type_ids seg = true ->
  has_shape2 B T offsets = true ->
  offsets_in_range N offsets = true ->
  exists L,
    forward_body self token_ids mask offsets wordpiece_mask type_ids seg = Ok L /\
    has_shape4g B T W D (span_embeddings L) = true /\
    has_shape4g B T W 1 (span_mask L) = true /\
    has_shape3 B T D (span_embeddings_sum L) = true /\
    has_shape3g B T 1 (span_embeddings_len L) = true.
Proof.
  intros D W Hs Ho Hin.
  destruct (has_shape2_inv _ _ _ Ho) as [Hl HT].
  eexists. split; [by eapply forward_body_runs|].
  cbn [span_embeddings span_mask span_embeddings_sum span_embeddings_len].
  apply andb_true_iff in Hs as [_ Hs]. fold D in Hs.
  destruct (has_shape3_inv _ _ _ _ Hs) as [HB _].
  fold W. repeat split.
  - apply has_shape4g_intro; [rewrite length_zip_with; lia|].
    intros b x Hb.
    apply lookup_zip_with_Some in Hb as (row & sps & -> & Hrow & Hsps).
    apply has_shape3g_intro; [rewrite length_fmap; by eapply HT|].
    intros j y Hj.
    apply list_lookup_fmap_Some in Hj as (sp & -> & Hj).
    assert (at2 offsets b j = Some sp) as Hsp.
    { unfold at2. by rewrite Hsps. }
    destruct (token_facts _ _ _ _ _ _ _ _ Hs Hl Hin Hsp)
      as (row' & Hrow' & Hdim & Hins & Hfit & HD & Hpad & Hpos).
    assert (row' = row) as -> by congruence.
    apply has_shape2_intro; [apply length_masked_slots|].
    intros k v Hk.
    by apply (Forall_lookup_1 _ _ _ _
                (masked_slots_dim row W D sp Hfit Hins Hdim Hpad) Hk).
  - apply has_shape4g_intro; [by rewrite length_fmap|].
    intros b x Hb.
    apply list_lookup_fmap_Some in Hb as (sps & -> & Hsps).
    apply has_shape3g_intro; [rewrite length_fmap; by eapply HT|].
    intros j y Hj.
    apply list_lookup_fmap_Some in Hj as (sp & -> & Hj).
    apply has_shape2_intro; [by rewrite length_fmap, length_span_mask_of|].
    intros k v Hk.
    by apply list_lookup_fmap_Some in Hk as (m & -> & _).
  - apply has_shape3_intro; [rewrite length_zip_with; lia|].
    intros b x Hb.
    apply lookup_zip_with_Some in Hb as (row & sps & -> & Hrow & Hsps).
    split; [rewrite length_fmap; by eapply HT|].
    apply Forall_fmap, Forall_lookup. intros j sp Hj. simpl.
    assert (at2 offsets b j = Some sp) as Hsp.
    { unfold at2. by rewrite Hsps. }
    destruct (token_facts _ _ _ _ _ _ _ _ Hs Hl Hin Hsp)
      as (row' & Hrow' & Hdim & Hins & Hfit & HD & Hpad & Hpos).
    assert (row' = row) as -> by congruence.
    rewrite HD. by apply length_vsum, masked_slots_dim.
  - apply has_shape3g_intro; [by rewrite length_fmap|].
    intros b x Hb.
    apply list_lookup_fmap_Some in Hb as (sps & -> & Hsps).
    apply has_shape2_intro; [rewrite length_fmap; by eapply HT|].
    intros j y Hj.
    apply list_lookup_fmap_Some in Hj as (sp & -> & Hj).
    assert (at2 offsets b j = Some sp) as Hsp.
    { unfold at2. by rewrite Hsps. }
    by rewrite slot_count_eq by by eapply span_length_le_max.
Qed.

Lemma intermediate_shapes_witness :
  exists L,
    forward_body id_module [[4; 8; 5]] [[1; 1]] [[(0, 1); (2, 2)]] [[1; 1; 1]]
      None None = Ok L /\
    has_shape4g 1 2 (max_span_length [[(0, 1); (2, 2)]])
      (Z.to_nat (get_output_dim id_module)) (span_embeddings L) = true /\
    has_shape4g 1 2 (max_span_length [[(0, 1); (2, 2)]]) 1 (span_mask L)
      = true /\
    has_shape3 1 2 (Z.to_nat (get_output_dim id_module))
      (span_embeddings_sum L) = true /\
    has_shape3g 1 2 1 (span_embeddings_len L) = true.
Proof.
  apply (intermediate_shapes id_module [[4; 8; 5]] [[1; 1]]
           [[(0, 1); (2, 2)]] [[1; 1; 1]] None None 1%nat 3%nat 2%nat);
    reflexivity.
Defined.

(** ** The returned tensor on the store *)

(** X7: on a store that holds the arguments, a call with offsets in range
    returns a reference to a tensor object created by the call, not to an
    argument or to any object that existed before, and that object holds
    the pooled output. *)
Theorem forward_returns_new_tensor
    self (token_ids mask offsets wordpiece_mask : nat)
    (type_ids seg : option nat) (σ : list tensor) t m o w tyv sgv B N :
  σ !! token_ids = Some (TLong2 t) ->
  σ !! offsets = Some (TSpans o) ->
  σ !! wordpiece_mask = Some (TLong2 w) ->
  optional_holds σ type_ids tyv ->
  optional_holds σ seg sgv ->
  inner_shape_ok (_matched_embedder self) B N t w tyv sgv = true ->
  length o = B ->
  offsets_in_range N o = true ->
  exists out σ' r,
    forward self t m o w tyv sgv = Ok out /\
    forward_st self token_ids mask offsets wordpiece_mask type_ids seg σ
      = (σ', Ok r) /\
    σ !! r = None /\
    σ' !! r = Some (TFloat3 out).
Proof.
  intros Ht Ho Hw Hty Hsg Hs Hl Hin.
  pose proof (forward_body_runs self t m o w tyv sgv B N Hs Hl Hin) as HL.
  cbv zeta in HL.
  rewrite (forward_st_run _ _ _ _ _ _ _ _ _ m _ _ _ _ _ Ht Ho Hw Hty Hsg HL).
  unfold forward. rewrite HL.
  eexists _, _, _. split; [reflexivity|]. split; [reflexivity|]. split.
  - apply lookup_ge_None. lia.
  - new_tensor 6%nat.
Qed.

Lemma forward_returns_new_tensor_witness :
  exists out σ' r,
    forward id_module [[4; 8; 5]] [[1; 1]] [[(0, 1); (2, 2)]] [[1; 1; 1]]
      None None = Ok out /\
    forward_st id_module 0 1 2 3 None None
      [TLong2 [[4; 8; 5]]; TLong2 [[1; 1]];
       TSpans [[(0, 1); (2, 2)]]; TLong2 [[1; 1; 1]]]
      = (σ', Ok r) /\
    [TLong2 [[4; 8; 5]]; TLong2 [[1; 1]];
     TSpans [[(0, 1); (2, 2)]]; TLong2 [[1; 1; 1]]] !! r = None /\
    σ' !! r = Some (TFloat3 out).
Proof.
  apply (forward_returns_new_tensor id_module 0 1 2 3 None None
           [TLong2 [[4; 8; 5]]; TLong2 [[1; 1]];
            TSpans [[(0, 1); (2, 2)]]; TLong2 [[1; 1; 1]]]
           [[4; 8; 5]] [[1; 1]] [[(0, 1); (2, 2)]] [[1; 1; 1]] None None
           1%nat 3%nat);
    first [reflexivity | exact I].
Defined.

(** X8: [forward] can be called again on the same arguments: the first
    call leaves them intact, so the second call returns a second new
    tensor with the same values, and the tensor returned by the first call
    still holds them. *)
Theorem forward_twice
    self (token_ids mask offsets wordpiece_mask : nat)
    (type_ids seg : option nat) (σ : list tensor) t m o w tyv sgv B N :
  σ !! token_ids = Some (TLong2 t) ->
  σ !! offsets = Some (TSpans o) ->
  σ !! wordpiece_mask = Some (TLong2 w) ->
  optional_holds σ type_ids tyv ->
  optional_holds σ seg sgv ->
  inner_shape_ok (_matched_embedder self) B N t w tyv sgv = true ->
  length o = B ->
  offsets_in_range N o = true ->
  exists out σ1 r1 σ2 r2,
    forward self t m o w tyv sgv = Ok out /\
    forward_st self token_ids mask offsets wordpiece_mask type_ids seg σ
      = (σ1, Ok r1) /\
    forward_st self token_ids mask offsets wordpiece_mask type_ids seg σ1
      = (σ2, Ok r2) /\
    r1 <> r2 /\
    σ2 !! r1 = Some (TFloat3 out) /\
    σ2 !! r2 = Some (TFloat3 out).
Proof.
  intros Ht Ho Hw Hty Hsg Hs Hl Hin.
  pose proof (forward_body_runs self t m o w tyv sgv B N Hs Hl Hin) as HL.
  cbv zeta in HL.
  pose proof (forward_st_run _ _ mask _ _ _ _ _ _ m _ _ _ _ _
                Ht Ho Hw Hty Hsg HL) as H1.
  match type of H1 with
  | _ = (σ ++ ?k, _) => set (new := k) in *
  end.
  pose proof (forward_st_run _ _ mask _ _ _ _ (σ ++ new) _ m _ _ _ _ _
                (lookup_app_l_Some _ new _ _ Ht)
                (lookup_app_l_Some _ new _ _ Ho)
                (lookup_app_l_Some _ new _ _ Hw)
                (optional_holds_app _ new _ _ Hty)
                (optional_holds_app _ new _ _ Hsg) HL) as H2.
  fold new in H2. unfold forward. rewrite HL.
  eexists _, _, _, _, _.
  split; [reflexivity|]. split; [exact H1|]. split; [exact H2|].
  split; [rewrite length_app; simpl; lia|]. split.
  - apply lookup_app_l_Some. unfold new. new_tensor 6%nat.
  - unfold new. new_tensor 6%nat.
Qed.

Lemma forward_twice_witness :
  exists out σ1 r1 σ2 r2,
    forward id_module [[4; 8; 5]] [[1; 1]] [[(0, 1); (2, 2)]] [[1; 1; 1]]
      None None = Ok out /\
    forward_st id_module 0 1 2 3 None None
      [TLong2 [[4; 8; 5]]; TLong2 [[1; 1]];
       TSpans [[(0, 1); (2, 2)]]; TLong2 [[1; 1; 1]]]
      = (σ1, Ok r1) /\
    forward_st id_module 0 1 2 3 None None σ1 = (σ2, Ok r2) /\
    r1 <> r2 /\
    σ2 !! r1 = Some (TFloat3 out) /\
    σ2 !! r2 = Some (TFloat3 out).
Proof.
  apply (forward_twice id_module 0 1 2 3 None None
           [TLong2 [[4; 8; 5]]; TLong2 [[1; 1]];
            TSpans [[(0, 1); (2, 2)]]; TLong2 [[1; 1; 1]]]
           [[4; 8; 5]] [[1; 1]] [[(0, 1); (2, 2)]] [[1; 1; 1]] None None
           1%nat 3%nat);
    first [reflexivity | exact I].
Defined.

(** ** A failing call on the store *)

Lemma run_bind_raise {A B} (m : M A) (f : A -> M B) (σ σ1 : list tensor) e :
  m σ = (σ1, Raise e) -> (m ≫= f) σ = (σ1, Raise e).
Proof. intros H. unfold mbind, M_bind. by rewrite H. Qed.

(** X9: when the span selection raises, [forward] raises the same error
    before the multiplication in place: on the store the failed call has
    created the [embeddings] tensor and nothing else, and has changed no
    tensor. *)
Theorem forward_fails_before_update
    self (token_ids mask offsets wordpiece_mask : nat)
    (type_ids seg : option nat) (σ : list tensor) t o w tyv sgv e :
  let emb := inner_forward (_matched_embedder self) t w tyv sgv in
  σ !! token_ids = Some (TLong2 t) ->
  σ !! offsets = Some (TSpans o) ->
  σ !! wordpiece_mask = Some (TLong2 w) ->
  optional_holds σ type_ids tyv ->
  optional_holds σ seg sgv ->
  batched_span_select (contiguous emb) o = Raise e ->
  forward_st self token_ids mask offsets wordpiece_mask type_ids seg σ
  = (σ ++ [TFloat3 emb], Raise e).
Proof.
  intros emb Ht Ho Hw Hty Hsg Hsel. unfold forward_st.
  erewrite run_bind; cycle 1.
  { unfold matched_embedder_st.
    erewrite run_bind by (by apply run_load_long2).
    erewrite run_bind by (by apply run_load_long2).
    erewrite run_bind by (by apply run_load_optional).
    erewrite run_bind by (by apply run_load_optional).
    reflexivity. }
  fold emb. unfold contiguous_st.
  erewrite run_bind by reflexivity.
  apply run_bind_raise. unfold batched_span_select_st.
  erewrite run_bind; cycle 1.
  { apply run_load_float3. new_tensor 0%nat. }
  erewrite run_bind by (by apply run_load_spans, lookup_app_l_Some).
  apply run_bind_raise. unfold lift. by rewrite <- Hsel.
Qed.

Lemma forward_fails_before_update_witness :
  forward_st id_module 0 1 2 3 None None
    [TLong2 [[4; 8; 5]]; TLong2 [[1; 1]];
     TSpans [[(0, 1); (2, 3)]]; TLong2 [[1; 1; 1]]]
  = ([TLong2 [[4; 8; 5]]; TLong2 [[1; 1]];
      TSpans [[(0, 1); (2, 3)]]; TLong2 [[1; 1; 1]]]
     ++ [TFloat3 (inner_forward (_matched_embedder id_module)
                    [[4; 8; 5]] [[1; 1; 1]] None None)],
     Raise IndexOutOfRange).
Proof.
  apply (forward_fails_before_update id_module 0 1 2 3 None None
           [TLong2 [[4; 8; 5]]; TLong2 [[1; 1]];
            TSpans [[(0, 1); (2, 3)]]; TLong2 [[1; 1; 1]]]
           [[4; 8; 5]] [[(0, 1); (2, 3)]] [[1; 1; 1]] None None
           IndexOutOfRange);
    first [reflexivity | exact I].
Defined.
